(** * fermipy.diffuse.gt_srcmaps_catalog: a shallow embedding

    The module has two classes.  [GtSrcmapsCatalog.run_analysis] is the
    worker: it walks an index range of a source catalog and, one source at a
    time, adds the source to the likelihood object, writes its source map
    into the output file and deletes it again.  [SrcmapsCatalog_SG.
    build_job_configs] is the generator: it cuts every catalog into chunks
    of [nsrc] sources and fills a dictionary with one job configuration per
    catalog, binning component and chunk.

    Python integers are unbounded and are modelled by [Z]; Python strings by
    [string]; the [job_configs] dictionary by a [gmap string _]; the
    dictionaries that are only iterated by the list of their items in
    iteration order.  Calls into the Fermi ScienceTools and into other
    modules of fermipy are recorded as events of a trace or taken as
    parameters. *)

From Stdlib Require Import ZArith Lia Ascii.
From stdpp Require Import base numbers list list_numbers strings pretty gmap fin_maps.

Local Open Scope Z_scope.

(** ** Python built-ins used by the module *)

Module Py.

(** [s.startswith(p)] *)
Fixpoint startswith (p s : string) : bool :=
  match p, s with
  | EmptyString, _ => true
  | String a p', String b s' => if decide (a = b) then startswith p' s' else false
  | String _ _, EmptyString => false
  end.

(** [s.replace(old, new)] for a non-empty [old]: every occurrence of [old],
    scanning from the left and without overlap, is replaced by [new].
    [skip] counts the characters of a matched [old] still to be dropped. *)
Fixpoint replace_from (old new : string) (skip : nat) (s : string) : string :=
  match s with
  | EmptyString => EmptyString
  | String a s' =>
      match skip with
      | S k => replace_from old new k s'
      | O =>
          if startswith old s
          then new +:+ replace_from old new (Nat.pred (String.length old)) s'
          else String a (replace_from old new O s')
      end
  end.

Definition replace (s old new : string) : string := replace_from old new O s.

(** ["0" * n] *)
Fixpoint zeros (n : nat) : string :=
  match n with
  | O => EmptyString
  | S k => String "0"%char (zeros k)
  end.

(** ["%0<w>i" % z]: the decimal digits of [z], padded with zeros on the
    left to a total width of [w], the sign (if any) first. *)
Definition fmt_0i (w : nat) (z : Z) : string :=
  let digits := pretty (Z.abs z) in
  let sign := if decide (z < 0) then "-" else "" in
  sign +:+ zeros (w - String.length sign - String.length digits)%nat +:+ digits.

(** ["%i" % z] *)
Definition fmt_i (z : Z) : string := fmt_0i 0 z.

(** [range(n)] and [xrange(lo, hi)] *)
Definition range (n : Z) : list Z := seqZ 0 n.
Definition xrange (lo hi : Z) : list Z := seqZ lo (hi - lo).

(** [seq[i]] on an indexable sequence: a negative index counts from the
    end, an index outside [-len, len) raises [IndexError] ([None]).  The
    SWIG wrapper of [std::vector] that [pyLike.StringVector] is indexes
    the same way. *)
Definition getitem {A} (l : list A) (i : Z) : option A :=
  let n := Z.of_nat (length l) in
  if decide (0 ≤ i) then l !! Z.to_nat i
  else if decide (- n ≤ i) then l !! Z.to_nat (n + i)
  else None.

(** [c in "0123456789"] *)
Definition is_digit (c : ascii) : bool :=
  bool_decide (c ∈ [ "0"; "1"; "2"; "3"; "4"; "5"; "6"; "7"; "8"; "9" ]%char).

(** [s.isdigit()], also true of the empty string here *)
Fixpoint all_digits (s : string) : bool :=
  match s with
  | EmptyString => true
  | String c s' => is_digit c && all_digits s'
  end.

(** [old in s] *)
Fixpoint occurs (old s : string) : bool :=
  startswith old s
  || match s with
     | EmptyString => false
     | String _ s' => occurs old s'
     end.

(** No occurrence of [old] in [a + s] starts inside [a]. *)
Fixpoint clear_of (old a s : string) : bool :=
  match a with
  | EmptyString => true
  | String c a' => negb (startswith old (a +:+ s)) && clear_of old a' s
  end.

(** [x in s] for a character [x] *)
Fixpoint mem (x : ascii) (s : string) : bool :=
  match s with
  | EmptyString => false
  | String c s' => bool_decide (x = c) || mem x s'
  end.

End Py.

(** ** The worker: [GtSrcmapsCatalog.run_analysis] *)

Module Worker.

(** The parsed command line ([default_options] of the class). *)
Record Args := {
  irfs : string;
  expcube : string;
  bexpmap : string;
  cmap : string;
  srcmdl : string;
  outfile : string;
  srcmin : Z;
  srcmax : Z;
  gzip : bool
}.

Definition NULL_MODEL : string := "srcmdls/null.xml".

(** The calls [run_analysis] makes on its collaborators, in program
    order.  [System] carries the exit status [os.system] returned. *)
Inductive event :=
| BinnedObs (irfs expCube srcMaps binnedExpMap : string)
| BinnedAnalysis (srcModel : string)
| ReadXml (srcmdl : string)
| SaveSourceMaps (outfile : string)
| CopyAndUpdateDssKeywords (cmap outfile irfs : string)
| ReleaseSource (srcName : string)
| AddSource (srcName : string)
| SaveSourceMap_partial (outfile srcName : string)
| DeleteSource (srcName : string)
| System (cmd : string) (status : Z).

Global Instance event_eq_dec : EqDecision event.
Proof. solve_decision. Defined.

(** How a run ends: it returns, or [srcNames[i]] raised. *)
Inductive outcome :=
| Done
| IndexError (i : Z).

Global Instance outcome_eq_dec : EqDecision outcome.
Proof. solve_decision. Defined.

Section Run.
(** [os.system]: the exit status of a shell command. *)
Variable os_system : string → Z.
Variable args : Args.
(** The names [source_factory.fetchSrcNames] finds in [args.srcmdl]. *)
Variable srcNames : list string.

(** Lines 72-87: the observation, the likelihood object on the null
    model and the source factory. *)
Definition setup : list event :=
  [ BinnedObs (irfs args) (expcube args) (cmap args) (bexpmap args);
    BinnedAnalysis NULL_MODEL;
    ReadXml (srcmdl args) ].

(** Lines 89-92. *)
Definition min_idx : Z := srcmin args.
Definition max_idx : Z :=
  if decide (srcmax args < 0) then Z.of_nat (length srcNames) else srcmax args.

(** Lines 96-100, under [if i == min_idx]. *)
Definition init_artifact (i : Z) : list event :=
  if decide (i = min_idx)
  then [ SaveSourceMaps (outfile args);
         CopyAndUpdateDssKeywords (cmap args) (outfile args) (irfs args) ]
  else [].

(** Lines 103-106, for the source called [srcName]. *)
Definition process_source (srcName : string) : list event :=
  [ ReleaseSource srcName;
    AddSource srcName;
    SaveSourceMap_partial (outfile args) srcName;
    DeleteSource srcName ].

(** Lines 94-106: the body is run for each index in turn; an index
    outside [srcNames] raises at line 102 and ends the run. *)
Fixpoint for_loop (idxs : list Z) : list event * outcome :=
  match idxs with
  | [] => ([], Done)
  | i :: rest =>
      match Py.getitem srcNames i with
      | None => (init_artifact i, IndexError i)
      | Some srcName =>
          let '(tr, o) := for_loop rest in
          (init_artifact i ++ process_source srcName ++ tr, o)
      end
  end.

(** Lines 108-109; the status of [os.system] is dropped. *)
Definition compress : list event :=
  if gzip args
  then let cmd := "gzip -9 " +:+ outfile args in [ System cmd (os_system cmd) ]
  else [].

Definition run_analysis : list event * outcome :=
  match for_loop (Py.xrange min_idx max_idx) with
  | (tr, Done) => (setup ++ tr ++ compress, Done)
  | (tr, IndexError i) => (setup ++ tr, IndexError i)
  end.

End Run.

(** *** The likelihood object, as far as the trace determines it

    [addSource] puts a source into the model of [like.logLike] and
    [deleteSource] takes the source of that name out; the null model the
    object is built on has no source. *)
Definition context_step (ctx : list string) (e : event) : list string :=
  match e with
  | AddSource n => ctx ++ [n]
  | DeleteSource n => filter (λ x, x ≠ n) ctx
  | _ => ctx
  end.

Definition context_after (tr : list event) : list string :=
  foldl context_step [] tr.

(** Calls that create the output file or copy its header. *)
Definition is_init (e : event) : bool :=
  match e with
  | SaveSourceMaps _ | CopyAndUpdateDssKeywords _ _ _ => true
  | _ => false
  end.

Definition is_add (e : event) : bool :=
  match e with AddSource _ => true | _ => false end.

Definition is_system (e : event) : bool :=
  match e with System _ _ => true | _ => false end.

(** *** The shape of every trace

    Whatever the index range, a trace is a sequence of calls that leave
    the likelihood object alone, interleaved with complete cycles
    add, write, delete on one source. *)
Inductive cycles : list event → Prop :=
| cycles_nil : cycles []
| cycles_other e tr :
    is_add e = false → (∀ n, e ≠ DeleteSource n) →
    cycles tr → cycles (e :: tr)
| cycles_source o n tr :
    cycles tr →
    cycles (AddSource n :: SaveSourceMap_partial o n :: DeleteSource n :: tr).

(** A run that initialised the output file although it added no source
    and returned. *)
Definition initialised_without_source (r : list event * outcome) : Prop :=
  existsb is_init r.1 = true ∧ existsb is_add r.1 = false ∧ r.2 = Done.

(** The sources whose maps a trace writes, in the order of writing. *)
Definition saved (tr : list event) : list string :=
  omap (λ e, match e with SaveSourceMap_partial _ n => Some n | _ => None end) tr.

(** The file a call creates or writes into, if it does. *)
Definition written_file (e : event) : option string :=
  match e with
  | SaveSourceMaps o | CopyAndUpdateDssKeywords _ o _ | SaveSourceMap_partial o _ => Some o
  | _ => None
  end.

(** The source a call handles, if it handles one. *)
Definition handled_source (e : event) : option string :=
  match e with
  | ReleaseSource n | AddSource n | SaveSourceMap_partial _ n | DeleteSource n => Some n
  | _ => None
  end.

(** A call that writes into no file but [args.outfile] and handles no
    source but those of the catalog. *)
Definition stays_inside (args : Args) (srcNames : list string) (e : event) : Prop :=
  (∀ o, written_file e = Some o → o = outfile args)
  ∧ (∀ n, handled_source e = Some n → n ∈ srcNames).

(** A run whose trace has a call of [os.system] exactly when the [gzip]
    flag is set. *)
Definition compressed_iff_flag (args : Args) (r : list event * outcome) : Prop :=
  existsb is_system r.1 = true ↔ gzip args = true.

(** [args] with [srcmin] and [srcmax] replaced. *)
Definition with_range (lo hi : Z) (args : Args) : Args :=
  {| irfs := irfs args;
     expcube := expcube args;
     bexpmap := bexpmap args;
     cmap := cmap args;
     srcmdl := srcmdl args;
     outfile := outfile args;
     srcmin := lo;
     srcmax := hi;
     gzip := gzip args |}.

(** *** Sample runs *)

Definition three_sources : list string := ["E0"; "E1"; "E2"].

Definition sample_args (lo hi : Z) (gz : bool) : Args :=
  {| irfs := "P8R2_SOURCE_V6";
     expcube := "ltcube.fits";
     bexpmap := "bexpcube.fits";
     cmap := "ccube.fits";
     srcmdl := "catalog.xml";
     outfile := "srcmaps.fits";
     srcmin := lo;
     srcmax := hi;
     gzip := gz |}.

(** [os.system] when the command succeeds and when it fails. *)
Definition gzip_ok : string → Z := λ _, 0.
Definition gzip_fails : string → Z := λ _, 256.

End Worker.

(** ** The generator: [SrcmapsCatalog_SG.build_job_configs] *)

Module Generator.

(** A binning component ([fermipy.diffuse.binning.Component]), with the
    attributes the generator reads. *)
Module Component.
Record t := {
  ebin_name : string;
  evtype_name : string;
  zmax : Z;
  coordsys : string;
  evtype : Z
}.
End Component.

(** What the generator reads of a catalog entry: [val.srcmdl_name], the
    rows of [val.catalog.table] and [val.roi_model.sources]. *)
Record CatalogInfo := {
  srcmdl_name : string;
  catalog_table : list string;
  roi_model_sources : list string
}.

(** The dictionary [make_catalog_comp_dict] returns; each dictionary is
    the list of its items in iteration order. *)
Record RetDict := {
  catalog_info_dict : list (string * CatalogInfo);
  comp_info_dict : list (string * list (string * CatalogInfo))
}.

(** The keyword arguments passed to the methods of [NAME_FACTORY]. *)
Module NameKeys.
Record t := {
  zcut : string;
  sourcekey : string;
  ebin : string;
  psftype : string;
  coordsys : string;
  irf_ver : string;
  mktime : string;
  fullpath : bool
}.
End NameKeys.

(** One value of [job_configs] (lines 198-207). *)
Module Job.
Record t := {
  cmap : string;
  expcube : string;
  irfs : string;
  bexpmap : string;
  outfile : string;
  logfile : string;
  srcmdl : string;
  evtype : Z;
  srcmin : Z;
  srcmax : Z
}.

Global Instance eq_dec : EqDecision t.
Proof. solve_decision. Defined.
End Job.

(** The command-line options of the generator ([default_options]). *)
Record Args := {
  comp : string;
  data : string;
  library : string;
  nsrc : Z;
  make_xml : bool
}.

(** [fermipy.diffuse.name_policy.NameFactory], whose code is in another
    module: the generator only calls it.  [B] is the state of the object
    (its [base_dict]); the module-level [NAME_FACTORY] is threaded through
    [build_job_configs] explicitly. *)
Class NameFactory (B : Type) := {
  update_base_dict : B → string → B;
  basedir : B → string;
  irf_ver : B → string;
  srcmaps : B → NameKeys.t → string;
  ccube : B → NameKeys.t → string;
  ltcube : B → NameKeys.t → string;
  irfs : B → NameKeys.t → string;
  bexpcube : B → NameKeys.t → string
}.

(** What the generator does besides filling the dictionary. *)
Inductive effect :=
| Print (line : string)
| WriteXml (srcmdl_name : string) (sources : list string).

Inductive exn :=
| ZeroDivisionError
| OverflowError.

Inductive Exc (A : Type) :=
| Ok (a : A)
| Raise (e : exn).
Global Arguments Ok {A} a.
Global Arguments Raise {A} e.

(** *** Line 178 in floating point

    [int(math.ceil(float(n_cat_src) / n_src_per_job))] works on binary64
    numbers.  A finite one is written [num / den] with [den] a power of 2;
    the numbers in use have at most 53 significant bits and a last bit of
    weight at least 2^-1074. *)
Module Binary64.

Record float := { num : Z; den : Z }.

(** The weight of the last bit of the smallest numbers. *)
Definition emin : Z := -1074.

(** 2 to the [e] for [e] above 0, and 1 otherwise. *)
Definition pow2 (e : Z) : Z := 2 ^ Z.max 0 e.

(** The largest [L] with 2^L at most [p / q], for positive [p] and [q]. *)
Definition log2_ratio (p q : Z) : Z :=
  let L := Z.log2 p - Z.log2 q in
  if decide (q * pow2 L ≤ p * pow2 (- L)) then L else L - 1.

(** The integer nearest to [a / b]; of two equally near, the even one. *)
Definition round_half_even (a b : Z) : Z :=
  let f := a `div` b in
  let r := a `mod` b in
  if decide (2 * r < b) then f
  else if decide (b < 2 * r) then f + 1
  else if Z.even f then f else f + 1.

(** [p / q] rounded to 53 significant bits (to fewer where the last bit
    would go below 2^[emin]), for [p] not negative and [q] positive.  The
    result is not cut off at the largest float: see [is_inf]. *)
Definition nearest (p q : Z) : float :=
  if decide (p = 0) then {| num := 0; den := 1 |}
  else
    let e := Z.max emin (log2_ratio p q - 52) in
    {| num := round_half_even (p * pow2 (- e)) (q * pow2 e) * pow2 e;
       den := pow2 (- e) |}.

(** A rounded value from 2^1024 on is no finite float. *)
Definition is_inf (x : float) : Prop := 2 ^ 1024 * den x ≤ Z.abs (num x).

(** [float(z)] for an integer [z], and the conversion of an integer
    operand of [/]: an integer that rounds to no finite float raises. *)
Definition of_int (z : Z) : Exc float :=
  let x := nearest (Z.abs z) 1 in
  if decide (is_inf x) then Raise OverflowError
  else Ok {| num := Z.sgn z * num x; den := den x |}.

(** [x / y] on floats. *)
Definition div (x y : float) : Exc float :=
  if decide (num y = 0) then Raise ZeroDivisionError
  else
    let q := nearest (Z.abs (num x) * den y) (den x * Z.abs (num y)) in
    Ok {| num := Z.sgn (num x) * Z.sgn (num y) * num q; den := den q |}.

(** [int(math.ceil(x))]; an infinite [x] does not convert to an integer. *)
Definition int_ceil (x : float) : Exc Z :=
  if decide (is_inf x) then Raise OverflowError
  else Ok (- ((- num x) `div` den x)).

(** [int(math.ceil(float(n) / d))]: [float(n)] comes first, then the
    division converts [d] and checks it against 0. *)
Definition int_ceil_div (n d : Z) : Exc Z :=
  match of_int n with
  | Raise e => Raise e
  | Ok x =>
      match of_int d with
      | Raise e => Raise e
      | Ok y =>
          match div x y with
          | Raise e => Raise e
          | Ok q => int_ceil q
          end
      end
  end.

End Binary64.

(** The integers that convert to a float are those below [float_limit] in
    absolute value: from 2^1024 - 2^970 on, rounding to binary64 gives
    2^1024, which is no float, and the conversion raises [OverflowError]. *)
Definition float_limit : Z := 2 ^ 1024 - 2 ^ 970.

(** The least integer not below [n / d]. *)
Definition exact_ceil (n d : Z) : Z := - ((- n) `div` d).

(** Line 178, [int(math.ceil(float(n) / d))], for the length [n] of a
    table and an integer [d], as the loops use it: [ZeroDivisionError] when
    [d] is 0, [OverflowError] when [d] does not convert to a float, and
    otherwise the ceiling of the exact quotient.  For every [n] below 2^53
    and every [d] this is what [Binary64.int_ceil_div] computes in floating
    point, as proved in [Binary64Facts].  From 2^53 rows on [float(n)] is
    rounded, and the float result can differ from the exact ceiling;
    [ceil_div] is the model of the line for tables of fewer than 2^53
    rows. *)
Definition ceil_div (n d : Z) : Exc Z :=
  if decide (d = 0) then Raise ZeroDivisionError
  else if decide (float_limit ≤ Z.abs d) then Raise OverflowError
  else Ok (exact_ceil n d).

(** Lines 149-150 and 154-155. *)
Definition write_model (val : CatalogInfo) : list effect :=
  [ Print (srcmdl_name val +:+ " : "
             +:+ Py.fmt_0i 6 (Z.of_nat (length (roi_model_sources val))));
    WriteXml (srcmdl_name val) (roi_model_sources val) ].

Definition _make_xml_files
    (catalog_info_dict : list (string * CatalogInfo))
    (comp_info_dict : list (string * list (string * CatalogInfo))) : list effect :=
  (catalog_info_dict.*2 ≫= write_model)
    ++ (comp_info_dict.*2 ≫= λ val, val.*2 ≫= write_model).

Section Build.
Context {B : Type} `{!NameFactory B}.
(** [fermipy.jobs.slac_impl.make_nfs_path] *)
Variable make_nfs_path : string → string.
(** [Component.make_key], applied to a component and a format string *)
Variable make_key : Component.t → string → string.
(** [Component.build_from_yamlfile] *)
Variable build_from_yamlfile : string → list Component.t.
(** [make_catalog_comp_dict], applied to [sources] and [basedir] *)
Variable make_catalog_comp_dict : string → string → RetDict.

Section Catalog.
Variable st : B.
Variable n_src_per_job : Z.
Variable catalog_name : string.
Variable catalog_info : CatalogInfo.

Definition n_cat_src : Z := Z.of_nat (length (catalog_table catalog_info)).

(** Lines 181-190. *)
Definition name_keys (comp : Component.t) : NameKeys.t :=
  {| NameKeys.zcut := "zmax" +:+ Py.fmt_i (Component.zmax comp);
     NameKeys.sourcekey := catalog_name;
     NameKeys.ebin := Component.ebin_name comp;
     NameKeys.psftype := Component.evtype_name comp;
     NameKeys.coordsys := Component.coordsys comp;
     NameKeys.irf_ver := irf_ver st;
     NameKeys.mktime := "none";
     NameKeys.fullpath := true |}.

(** Line 193. *)
Definition full_key (comp : Component.t) (i_job : Z) : string :=
  make_key comp "{ebin_name}_{evtype_name}" +:+ "_" +:+ Py.fmt_0i 2 i_job.

(** Line 196. *)
Definition job_outfile (comp : Component.t) (i_job : Z) : string :=
  Py.replace (srcmaps st (name_keys comp)) ".fits"
             ("_" +:+ Py.fmt_0i 2 i_job +:+ ".fits").

(** Lines 193-207: the key and the value stored for one [i_job]. *)
Definition job_entry (comp : Component.t) (i_job : Z) : string * Job.t :=
  let srcmin := i_job * n_src_per_job in
  let srcmax := Z.min (srcmin + n_src_per_job) n_cat_src in
  let outfile := job_outfile comp i_job in
  let logfile := make_nfs_path (Py.replace outfile ".fits" ".log") in
  (full_key comp i_job,
   {| Job.cmap := ccube st (name_keys comp);
      Job.expcube := ltcube st (name_keys comp);
      Job.irfs := irfs st (name_keys comp);
      Job.bexpmap := bexpcube st (name_keys comp);
      Job.outfile := outfile;
      Job.logfile := logfile;
      Job.srcmdl := srcmdl_name catalog_info;
      Job.evtype := Component.evtype comp;
      Job.srcmin := srcmin;
      Job.srcmax := srcmax |}).

(** Lines 192-207: what the loop over [range(n_job)] stores, in order. *)
Definition comp_jobs (n_job : Z) (comp : Component.t) : list (string * Job.t) :=
  job_entry comp <$> Py.range n_job.

(** Lines 180-207: what the loop over the components stores. *)
Definition catalog_jobs (n_job : Z) (components : list Component.t)
  : list (string * Job.t) :=
  components ≫= comp_jobs n_job.
End Catalog.

(** [job_configs[full_key] = ...] *)
Definition store (job_configs : gmap string Job.t) (kv : string * Job.t)
  : gmap string Job.t :=
  <[kv.1 := kv.2]> job_configs.

(** Lines 175-207: one turn of the loop over the catalogs. *)
Definition for_catalog (st : B) (n_src_per_job : Z) (components : list Component.t)
    (job_configs : gmap string Job.t) (item : string * CatalogInfo)
  : Exc (gmap string Job.t) :=
  let '(catalog_name, catalog_info) := item in
  match ceil_div (n_cat_src catalog_info) n_src_per_job with
  | Raise e => Raise e
  | Ok n_job =>
      Ok (foldl store job_configs
            (catalog_jobs st n_src_per_job catalog_name catalog_info n_job components))
  end.

Fixpoint for_catalogs (st : B) (n_src_per_job : Z) (components : list Component.t)
    (job_configs : gmap string Job.t) (items : list (string * CatalogInfo))
  : Exc (gmap string Job.t) :=
  match items with
  | [] => Ok job_configs
  | item :: rest =>
      match for_catalog st n_src_per_job components job_configs item with
      | Ok job_configs' => for_catalogs st n_src_per_job components job_configs' rest
      | Raise e => Raise e
      end
  end.

(** Lines 157-209.  The result is the state [NAME_FACTORY] is left in,
    the files written and lines printed, and the dictionary returned or
    the exception raised. *)
Definition build_job_configs (st : B) (args : Args)
  : B * list effect * Exc (gmap string Job.t) :=
  let components := build_from_yamlfile (comp args) in
  let st' := update_base_dict st (data args) in
  let ret_dict := make_catalog_comp_dict (library args) (basedir st') in
  let n_src_per_job := nsrc args in
  let written :=
    if make_xml args
    then _make_xml_files (catalog_info_dict ret_dict) (comp_info_dict ret_dict)
    else [] in
  (st', written,
   for_catalogs st' n_src_per_job components ∅ (catalog_info_dict ret_dict)).

End Build.

(** The index range of a stored job. *)
Definition job_range (kv : string * Job.t) : Z * Z :=
  (Job.srcmin kv.2, Job.srcmax kv.2).

(** Everything the loops of lines 175-207 store, in the order of storing,
    when the division of line 178 does not raise. *)
Definition stored_jobs {B : Type} `{!NameFactory B}
    (make_nfs_path : string → string) (make_key : Component.t → string → string)
    (st : B) (n_src_per_job : Z) (components : list Component.t)
    (items : list (string * CatalogInfo)) : list (string * Job.t) :=
  items ≫= λ item,
    catalog_jobs make_nfs_path make_key st n_src_per_job item.1 item.2
      (exact_ceil (n_cat_src item.2) n_src_per_job) components.

(** [args] with the [make_xml] flag replaced. *)
Definition with_make_xml (flag : bool) (args : Args) : Args :=
  {| comp := comp args;
     data := data args;
     library := library args;
     nsrc := nsrc args;
     make_xml := flag |}.

(** [ret_dict] as [build_job_configs] obtains it (lines 163-166). *)
Definition loaded_ret_dict {B : Type} `{!NameFactory B}
    (make_catalog_comp_dict : string → string → RetDict) (st : B) (args : Args)
  : RetDict :=
  make_catalog_comp_dict (library args) (basedir (update_base_dict st (data args))).

(** What lines 175-207 read of an item of [catalog_info_dict]: its key,
    [srcmdl_name] and the number of rows of the table. *)
Definition catalog_view (item : string * CatalogInfo) : string * string * nat :=
  (item.1, srcmdl_name item.2, length (catalog_table item.2)).

(** Two states of [NAME_FACTORY] that name the files alike: [irf_ver] is
    the same, and so is every path resolved for keys as the generator
    passes them ([mktime] none, [fullpath] set). *)
Definition same_names {B : Type} `{!NameFactory B} (st1 st2 : B) : Prop :=
  irf_ver st1 = irf_ver st2
  ∧ ∀ nk, NameKeys.mktime nk = "none" → NameKeys.fullpath nk = true →
      srcmaps st1 nk = srcmaps st2 nk
      ∧ ccube st1 nk = ccube st2 nk
      ∧ ltcube st1 nk = ltcube st2 nk
      ∧ irfs st1 nk = irfs st2 nk
      ∧ bexpcube st1 nk = bexpcube st2 nk.

(** *** A sample installation

    Stand-ins for the collaborators, to run the generator on examples: a
    naming policy that spells every key into the path, two binning
    components, and libraries of one catalog of 1200 sources, of one
    empty catalog and of two catalogs of one source each. *)
Module Sample.

Record base_dict := {
  base_basedir : string;
  base_dataset : string
}.

Definition resolve (st : base_dict) (stem : string) (nk : NameKeys.t) : string :=
  (if NameKeys.fullpath nk then base_basedir st +:+ "/" else "")
    +:+ stem +:+ "_" +:+ NameKeys.sourcekey nk
    +:+ "_" +:+ base_dataset st
    +:+ "_" +:+ NameKeys.mktime nk
    +:+ "_" +:+ NameKeys.zcut nk
    +:+ "_" +:+ NameKeys.ebin nk
    +:+ "_" +:+ NameKeys.psftype nk
    +:+ "_" +:+ NameKeys.coordsys nk
    +:+ "_" +:+ NameKeys.irf_ver nk
    +:+ ".fits".

Global Instance name_factory : NameFactory base_dict := {|
  update_base_dict st data :=
    {| base_basedir := base_basedir st; base_dataset := data |};
  basedir := base_basedir;
  irf_ver := λ _, "V6";
  srcmaps st nk := resolve st "srcmaps/srcmaps" nk;
  ccube st nk := resolve st "counts_cubes/ccube" nk;
  ltcube st nk := resolve st "lt_cubes/ltcube" nk;
  irfs st nk := "P8R2_SOURCE_" +:+ NameKeys.irf_ver nk;
  bexpcube st nk := resolve st "bexp_cubes/bexcube" nk
|}.

(** A naming policy whose source map files have another extension. *)
Definition hdf_factory : NameFactory base_dict := {|
  update_base_dict st data :=
    {| base_basedir := base_basedir st; base_dataset := data |};
  basedir := base_basedir;
  irf_ver := λ _, "V6";
  srcmaps st nk := "srcmaps_" +:+ NameKeys.sourcekey nk +:+ "_" +:+ NameKeys.ebin nk +:+ ".h5";
  ccube st nk := resolve st "counts_cubes/ccube" nk;
  ltcube st nk := resolve st "lt_cubes/ltcube" nk;
  irfs st nk := "P8R2_SOURCE_" +:+ NameKeys.irf_ver nk;
  bexpcube st nk := resolve st "bexp_cubes/bexcube" nk
|}.

Definition NAME_FACTORY : base_dict :=
  {| base_basedir := "/nfs/diffuse"; base_dataset := "" |}.

(** [NAME_FACTORY] after [update_base_dict] on the sample data file. *)
Definition NAME_FACTORY_loaded : base_dict :=
  update_base_dict NAME_FACTORY "dataset.yaml".

Definition make_nfs_path (path : string) : string := path.

(** The value of the one format string the generator passes. *)
Definition make_key (c : Component.t) (format_str : string) : string :=
  Component.ebin_name c +:+ "_" +:+ Component.evtype_name c.

Definition component (ebin : string) : Component.t :=
  {| Component.ebin_name := ebin;
     Component.evtype_name := "PSF3";
     Component.zmax := 100;
     Component.coordsys := "GAL";
     Component.evtype := 32 |}.

Definition build_from_yamlfile (yamlfile : string) : list Component.t :=
  [ component "E0"; component "E1" ].

Definition catalog (name : string) (n : nat) : CatalogInfo :=
  {| srcmdl_name := "srcmdls/" +:+ name +:+ ".xml";
     catalog_table := replicate n name;
     roi_model_sources := [ name ] |}.

Definition make_catalog_comp_dict (sources basedir : string) : RetDict :=
  let catalogs :=
    if decide (sources = "two_catalogs.yaml")
    then [ ("3FGL", catalog "3FGL" 1); ("4FGL", catalog "4FGL" 1) ]
    else if decide (sources = "empty_catalog.yaml")
    then [ ("3FGL", catalog "3FGL" 0) ]
    else [ ("3FGL", catalog "3FGL" 1200) ] in
  {| catalog_info_dict := catalogs;
     comp_info_dict :=
       (λ item, (item.1, [ ("E0_PSF3", catalog (item.1 +:+ "_E0_PSF3") 0) ]))
         <$> catalogs |}.

Definition args (sources : string) (n_src_per_job : Z) (flag : bool) : Args :=
  {| comp := "binning.yaml";
     data := "dataset.yaml";
     library := sources;
     nsrc := n_src_per_job;
     make_xml := flag |}.

Definition build_job_configs (sources : string) (n_src_per_job : Z) (flag : bool)
  : base_dict * list effect * Exc (gmap string Job.t) :=
  Generator.build_job_configs make_nfs_path make_key build_from_yamlfile
    make_catalog_comp_dict NAME_FACTORY (args sources n_src_per_job flag).

End Sample.

End Generator.

(** * Properties of the worker *)

Module WorkerFacts.
Import Worker.

(** ** Indexing inside the catalog *)

Lemma getitem_nonneg {A} (l : list A) (i : Z) :
  0 ≤ i → Py.getitem l i = l !! Z.to_nat i.
Proof. intros Hi. unfold Py.getitem. by rewrite decide_True. Qed.

Lemma getitem_past_end {A} (l : list A) (i : Z) :
  Z.of_nat (length l) ≤ i → Py.getitem l i = None.
Proof.
  intros Hi. rewrite getitem_nonneg by lia.
  apply lookup_ge_None_2. lia.
Qed.

Section Loop.
Variable os_system : string → Z.
Variable args : Args.
Variable srcNames : list string.

Local Abbreviation for_loop := (for_loop args srcNames).
Local Abbreviation process_source := (process_source args).
Local Abbreviation init_artifact := (init_artifact args).

Lemma init_artifact_first : init_artifact (min_idx args) =
  [ SaveSourceMaps (outfile args);
    CopyAndUpdateDssKeywords (cmap args) (outfile args) (irfs args) ].
Proof. unfold Worker.init_artifact. by rewrite decide_True. Qed.

Lemma init_artifact_later i : i ≠ min_idx args → init_artifact i = [].
Proof. intros Hi. unfold Worker.init_artifact. by rewrite decide_False. Qed.

(** After the first index the loop only adds, writes and deletes, one
    source after the other in catalog order. *)
Lemma for_loop_later (k : nat) : ∀ lo : Z,
  min_idx args < lo → 0 ≤ lo → lo + Z.of_nat k ≤ Z.of_nat (length srcNames) →
  for_loop (seqZ lo (Z.of_nat k))
  = (take k (drop (Z.to_nat lo) srcNames) ≫= process_source, Done).
Proof.
  induction k as [|k IH]; intros lo Hmin Hlo Hhi.
  - by rewrite seqZ_nil.
  - rewrite seqZ_cons by lia. cbn [Worker.for_loop].
    rewrite getitem_nonneg by done.
    destruct (lookup_lt_is_Some_2 srcNames (Z.to_nat lo)) as [x Hx]; [lia|].
    rewrite Hx, (drop_S _ _ _ Hx).
    replace (Z.pred (Z.of_nat (S k))) with (Z.of_nat k) by lia.
    rewrite IH by lia.
    rewrite init_artifact_later by lia.
    replace (Z.to_nat (Z.succ lo)) with (S (Z.to_nat lo)) by lia.
    done.
Qed.

(** A range inside the catalog: the output file is initialised once,
    before the first source, and the loop returns. *)
Lemma for_loop_in_range (lo hi : Z) :
  lo = min_idx args → 0 ≤ lo < hi → hi ≤ Z.of_nat (length srcNames) →
  for_loop (Py.xrange lo hi)
  = (init_artifact lo
       ++ (take (Z.to_nat (hi - lo)) (drop (Z.to_nat lo) srcNames) ≫= process_source),
     Done).
Proof.
  intros Hmin Hlo Hhi. unfold Py.xrange.
  rewrite seqZ_cons by lia. cbn [Worker.for_loop].
  rewrite getitem_nonneg by lia.
  destruct (lookup_lt_is_Some_2 srcNames (Z.to_nat lo)) as [x Hx]; [lia|].
  rewrite Hx, (drop_S _ _ _ Hx).
  replace (Z.pred (hi - lo)) with (Z.of_nat (Z.to_nat (hi - lo - 1))) by lia.
  rewrite for_loop_later by lia.
  replace (Z.to_nat (hi - lo)) with (S (Z.to_nat (hi - lo - 1))) by lia.
  replace (Z.to_nat (Z.succ lo)) with (S (Z.to_nat lo)) by lia.
  done.
Qed.

(** A range that runs past the end of the catalog raises at the first
    index outside it. *)
Lemma for_loop_overrun (k : nat) : ∀ lo : Z,
  0 ≤ lo → lo + Z.of_nat k = Z.of_nat (length srcNames) → ∀ extra : Z, 0 < extra →
  (for_loop (seqZ lo (Z.of_nat k + extra))).2
  = IndexError (Z.of_nat (length srcNames)).
Proof.
  induction k as [|k IH]; intros lo Hlo Hlen extra Hextra.
  - rewrite seqZ_cons by lia. cbn [Worker.for_loop].
    rewrite getitem_past_end by lia. simpl. f_equal. lia.
  - rewrite seqZ_cons by lia. cbn [Worker.for_loop].
    rewrite getitem_nonneg by done.
    destruct (lookup_lt_is_Some_2 srcNames (Z.to_nat lo)) as [x Hx]; [lia|].
    rewrite Hx.
    replace (Z.pred (Z.of_nat (S k) + extra)) with (Z.of_nat k + extra) by lia.
    specialize (IH (Z.succ lo) ltac:(lia) ltac:(lia) extra Hextra).
    destruct (Worker.for_loop _ _ (seqZ (Z.succ lo) _)) as [tr o]. done.
Qed.

Lemma cycles_app tr1 tr2 : cycles tr1 → cycles tr2 → cycles (tr1 ++ tr2).
Proof. induction 1; simpl; eauto using cycles. Qed.

Lemma cycles_init_artifact i : cycles (init_artifact i).
Proof.
  unfold Worker.init_artifact. case_decide; repeat constructor; done.
Qed.

Lemma cycles_process_source n : cycles (process_source n).
Proof. unfold Worker.process_source. repeat constructor; done. Qed.

Lemma cycles_for_loop idxs : cycles (for_loop idxs).1.
Proof.
  induction idxs as [|i rest IH]; cbn [Worker.for_loop]; [constructor|].
  destruct (Py.getitem srcNames i) as [n|]; [|apply cycles_init_artifact].
  destruct (Worker.for_loop _ _ rest) as [tr o].
  apply cycles_app; [apply cycles_init_artifact|].
  apply cycles_app; [apply cycles_process_source|exact IH].
Qed.

Lemma cycles_setup : cycles (setup args).
Proof. unfold setup. repeat constructor; done. Qed.

Lemma cycles_compress : cycles (compress os_system args).
Proof. unfold compress. destruct (gzip args); repeat constructor; done. Qed.

Lemma cycles_run_analysis : cycles (run_analysis os_system args srcNames).1.
Proof.
  unfold run_analysis.
  pose proof (cycles_for_loop (Py.xrange (min_idx args) (max_idx args srcNames))) as H.
  destruct (Worker.for_loop _ _ _) as [tr [|i]]; cbn [fst snd] in *;
    auto using cycles_app, cycles_setup, cycles_compress.
Qed.

(** The loop never calls [os.system]. *)
Lemma for_loop_no_system idxs : existsb is_system (for_loop idxs).1 = false.
Proof.
  induction idxs as [|i rest IH]; cbn [Worker.for_loop]; [done|].
  destruct (Py.getitem srcNames i) as [n|].
  - destruct (Worker.for_loop _ _ rest) as [tr o]. cbn [fst] in *.
    rewrite !existsb_app, IH.
    unfold Worker.init_artifact. by case_decide.
  - unfold Worker.init_artifact. by case_decide.
Qed.

(** A run is the set-up, the loop and, when the loop returned and [gzip]
    is set, one call of [os.system]; nothing before that call depends
    on [os.system]. *)
Lemma run_analysis_shape :
  ∃ tr o, existsb is_system tr = false ∧
    ∀ os_system',
      run_analysis os_system' args srcNames
      = (tr ++ match o with
               | Done => compress os_system' args
               | IndexError _ => []
               end, o).
Proof.
  exists (setup args ++ (for_loop (Py.xrange (min_idx args) (max_idx args srcNames))).1),
         (for_loop (Py.xrange (min_idx args) (max_idx args srcNames))).2.
  split; [by rewrite existsb_app, for_loop_no_system|].
  intros os'. unfold run_analysis.
  destruct (Worker.for_loop _ _ _) as [tr [|i]]; cbn [fst snd].
  - by rewrite <-app_assoc.
  - by rewrite app_nil_r.
Qed.

End Loop.

(** *** The likelihood object along a trace *)

Lemma context_after_cons_other e tr :
  is_add e = false → context_after (e :: tr) = context_after tr.
Proof.
  intros He. unfold context_after. simpl.
  by destruct e.
Qed.

Lemma context_after_source o n tr :
  context_after (AddSource n :: SaveSourceMap_partial o n :: DeleteSource n :: tr)
  = context_after tr.
Proof.
  unfold context_after. simpl.
  rewrite filter_cons_False, filter_nil; [done|]. by intros [].
Qed.

Lemma cycles_context_end tr : cycles tr → context_after tr = [].
Proof.
  induction 1 as [|e tr He _ _ IH|o n tr _ IH]; [done|..].
  - by rewrite context_after_cons_other.
  - by rewrite context_after_source.
Qed.

Lemma cycles_context_take tr :
  cycles tr → ∀ k : nat, (length (context_after (take k tr)) ≤ 1)%nat.
Proof.
  induction 1 as [|e tr He _ _ IH|o n tr _ IH]; intros k.
  - rewrite take_nil. simpl. lia.
  - destruct k as [|k]; [simpl; lia|].
    cbn [take]. rewrite context_after_cons_other by done. apply IH.
  - destruct k as [|[|[|k]]]; try (simpl; lia).
    cbn [take]. rewrite context_after_source. apply IH.
Qed.

Lemma cycles_add_deleted tr :
  cycles tr → ∀ (k : nat) (n : string),
    tr !! k = Some (AddSource n) →
    context_after (take k tr) = []
    ∧ context_after (take (k + 1) tr) = [n]
    ∧ tr !! (k + 2)%nat = Some (DeleteSource n)
    ∧ context_after (take (k + 3) tr) = [].
Proof.
  induction 1 as [|e tr He _ _ IH|o m tr _ IH]; intros k n Hk.
  - by rewrite lookup_nil in Hk.
  - destruct k as [|k]; simpl in Hk.
    + by simplify_eq.
    + cbn [Nat.add take lookup list_lookup].
      rewrite !context_after_cons_other by done. by apply IH.
  - destruct k as [|[|[|k]]]; simpl in Hk; simplify_eq.
    + cbn [Nat.add take]. rewrite context_after_source. done.
    + cbn [Nat.add take lookup list_lookup].
      rewrite !context_after_source. by apply IH.
Qed.

(** ** The order of the calls *)

(** The three sources of a small catalog, compressed at the end. *)
Example run_analysis_three_sources :
  run_analysis gzip_ok (sample_args 0 (-1) true) three_sources
  = ([ BinnedObs "P8R2_SOURCE_V6" "ltcube.fits" "ccube.fits" "bexpcube.fits";
       BinnedAnalysis "srcmdls/null.xml";
       ReadXml "catalog.xml";
       SaveSourceMaps "srcmaps.fits";
       CopyAndUpdateDssKeywords "ccube.fits" "srcmaps.fits" "P8R2_SOURCE_V6";
       ReleaseSource "E0"; AddSource "E0";
       SaveSourceMap_partial "srcmaps.fits" "E0"; DeleteSource "E0";
       ReleaseSource "E1"; AddSource "E1";
       SaveSourceMap_partial "srcmaps.fits" "E1"; DeleteSource "E1";
       ReleaseSource "E2"; AddSource "E2";
       SaveSourceMap_partial "srcmaps.fits" "E2"; DeleteSource "E2";
       System "gzip -9 srcmaps.fits" 0 ],
     Done).
Proof. reflexivity. Qed.

(** C3.  On a non-empty index range [srcmin, max_idx) of the catalog the
    worker creates the output file and copies its header first, and then
    handles the sources of the range in ascending index order, each one by
    release, add, write, delete, before it touches the next one; the run
    returns. *)
Theorem run_analysis_add_serialize_remove os_system args srcNames :
  0 ≤ srcmin args → srcmin args < max_idx args srcNames →
  max_idx args srcNames ≤ Z.of_nat (length srcNames) →
  let entities :=
    take (Z.to_nat (max_idx args srcNames - srcmin args))
         (drop (Z.to_nat (srcmin args)) srcNames) in
  length entities = Z.to_nat (max_idx args srcNames - srcmin args)
  ∧ (∀ j : nat, Z.of_nat j < max_idx args srcNames - srcmin args →
       entities !! j = srcNames !! (Z.to_nat (srcmin args) + j)%nat)
  ∧ run_analysis os_system args srcNames
    = (setup args
         ++ [ SaveSourceMaps (outfile args);
              CopyAndUpdateDssKeywords (cmap args) (outfile args) (irfs args) ]
         ++ (entities ≫= λ n,
               [ ReleaseSource n; AddSource n;
                 SaveSourceMap_partial (outfile args) n; DeleteSource n ])
         ++ compress os_system args,
       Done).
Proof.
  intros Hlo Hne Hhi entities. split; [|split].
  - unfold entities. rewrite length_take, length_drop. lia.
  - intros j Hj. unfold entities.
    rewrite lookup_take_lt by lia. by rewrite lookup_drop.
  - unfold run_analysis, min_idx.
    rewrite for_loop_in_range by (done || unfold min_idx; lia).
    rewrite <-(init_artifact_first args). unfold min_idx.
    by rewrite <-!app_assoc.
Qed.

Lemma run_analysis_add_serialize_remove_witness :
  run_analysis gzip_ok (sample_args 0 3 false) three_sources
  = (setup (sample_args 0 3 false)
       ++ [ SaveSourceMaps "srcmaps.fits";
            CopyAndUpdateDssKeywords "ccube.fits" "srcmaps.fits" "P8R2_SOURCE_V6" ]
       ++ (three_sources ≫= λ n,
             [ ReleaseSource n; AddSource n;
               SaveSourceMap_partial "srcmaps.fits" n; DeleteSource n ])
       ++ [],
     Done).
Proof.
  apply (run_analysis_add_serialize_remove gzip_ok (sample_args 0 3 false) three_sources);
    by vm_compute.
Defined.

(** ** The empty range *)

(** The job [500, 500): the loop body never runs, so nothing creates the
    output file. *)
Lemma empty_range_not_initialised :
  ¬ initialised_without_source
      (run_analysis gzip_ok (sample_args 500 500 false) three_sources).
Proof. intros [Hinit _]. vm_compute in Hinit. discriminate. Qed.

(** C4, as the code has it.  On an empty index range the loop body never
    runs: the worker sets up the likelihood object, does not create the
    output file, adds no source and returns (after the call of gzip when
    that was asked for). *)
Theorem run_analysis_empty_range os_system args srcNames :
  max_idx args srcNames ≤ srcmin args →
  run_analysis os_system args srcNames = (setup args ++ compress os_system args, Done)
  ∧ existsb is_init (run_analysis os_system args srcNames).1 = false
  ∧ existsb is_add (run_analysis os_system args srcNames).1 = false.
Proof.
  intros Hempty.
  assert (run_analysis os_system args srcNames
          = (setup args ++ compress os_system args, Done)) as ->.
  { unfold run_analysis, Py.xrange, min_idx. by rewrite seqZ_nil by lia. }
  cbn [fst]. rewrite !existsb_app. unfold compress.
  by destruct (gzip args).
Qed.

Lemma run_analysis_empty_range_witness :
  run_analysis gzip_fails (sample_args 500 500 true) three_sources
  = (setup (sample_args 500 500 true) ++ [ System "gzip -9 srcmaps.fits" 256 ], Done).
Proof.
  apply (run_analysis_empty_range gzip_fails (sample_args 500 500 true) three_sources).
  by vm_compute.
Defined.

(** ** Compression *)

Lemma existsb_is_system_false tr c st :
  existsb is_system tr = false → System c st ∉ tr.
Proof.
  intros Hno Hin. apply not_true_iff_false in Hno. apply Hno.
  apply existsb_exists. exists (System c st). split; [|done].
  by apply list_elem_of_In.
Qed.

Lemma filter_not_system_app tr1 tr2 :
  existsb is_system tr1 = false → Forall (λ e, is_system e = true) tr2 →
  filter (λ e, is_system e = false) (tr1 ++ tr2) = tr1.
Proof.
  intros H1 H2. rewrite filter_app.
  assert (filter (λ e, is_system e = false) tr2 = []) as ->.
  { induction H2 as [|e l He _ IH]; [done|].
    rewrite filter_cons_False; [done|]. by rewrite He. }
  rewrite app_nil_r. induction tr1 as [|e tr1 IH]; [done|].
  simpl in H1. apply orb_false_iff in H1 as [He H1].
  rewrite filter_cons_True by done. by rewrite IH.
Qed.

(** The job [0, 5) on a catalog of three sources, with the [gzip] flag
    set: the maps of the three sources are written, then the index 3 raises
    and the run ends before line 108, so that nothing is compressed. *)
Lemma flag_set_not_compressed :
  let r := run_analysis gzip_ok (sample_args 0 5 true) three_sources in
  ¬ compressed_iff_flag (sample_args 0 5 true) r
  ∧ gzip (sample_args 0 5 true) = true
  ∧ saved r.1 = three_sources
  ∧ r.2 = IndexError 3
  ∧ existsb is_system r.1 = false.
Proof.
  split; [|by vm_compute].
  intros [_ Hflag]. specialize (Hflag eq_refl). vm_compute in Hflag. discriminate.
Qed.

(** C8, as the code has it.  For a run that returns, gzip is called
    exactly when the [gzip] flag is set; a run that ends in an exception
    calls nothing through [os.system], whatever the flag.  Whenever gzip is
    called, the call is the last thing the worker does and the only call of
    [os.system].  The exit status of the call is dropped: the worker ends
    the same way, with the same calls before it, whether gzip fails or not,
    so that a failure of gzip is not reported and the source maps written
    are not touched. *)
Theorem compress_last_and_optional os_system args srcNames :
  let r := run_analysis os_system args srcNames in
  let gz := System ("gzip -9 " +:+ outfile args) (os_system ("gzip -9 " +:+ outfile args)) in
  (r.2 = Done → (gz ∈ r.1 ↔ gzip args = true))
  ∧ (r.2 ≠ Done → existsb is_system r.1 = false)
  ∧ (∀ c st, System c st ∈ r.1 →
       System c st = gz ∧ gzip args = true ∧ r.2 = Done
       ∧ ∃ tr, r.1 = tr ++ [gz] ∧ existsb is_system tr = false)
  ∧ (∀ os_system',
       (run_analysis os_system' args srcNames).2 = r.2
       ∧ filter (λ e, is_system e = false) (run_analysis os_system' args srcNames).1
         = filter (λ e, is_system e = false) r.1).
Proof.
  intros r gz.
  destruct (run_analysis_shape args srcNames) as (tr & o & Hno & Hrun).
  assert (Hr : r = (tr ++ match o with
                          | Done => compress os_system args
                          | IndexError _ => []
                          end, o)) by apply Hrun.
  assert (Hin : ∀ c st, System c st ∈ r.1 →
            System c st = gz ∧ gzip args = true ∧ r.2 = Done
            ∧ r.1 = tr ++ [gz]).
  { intros c st. rewrite Hr. cbn [fst snd]. rewrite elem_of_app.
    intros [Hin|Hin]; [by apply existsb_is_system_false in Hin|].
    destruct o; [|by apply elem_of_nil in Hin].
    unfold compress in *. destruct (gzip args); [|by apply elem_of_nil in Hin].
    apply list_elem_of_singleton in Hin. done. }
  split; [|split; [|split]].
  - intros Hdone. split.
    + intros Hgz. by apply Hin in Hgz as (_ & ? & _).
    + intros Hflag. rewrite Hr in Hdone |- *. cbn [fst snd] in *. subst o.
      unfold compress. rewrite Hflag. apply elem_of_app. right.
      by apply list_elem_of_singleton.
  - rewrite Hr. cbn [fst snd]. intros Hfail.
    destruct o; [done|]. by rewrite app_nil_r.
  - intros c st Hc. destruct (Hin c st Hc) as (? & ? & ? & ?). eauto 10.
  - intros os'. rewrite Hr, (Hrun os'). cbn [fst snd]. split; [done|].
    rewrite !filter_not_system_app; try done.
    + destruct o; [|done]. unfold compress. destruct (gzip args); repeat constructor.
    + destruct o; [|done]. unfold compress. destruct (gzip args); repeat constructor.
Qed.

Lemma compress_last_and_optional_witness :
  System "gzip -9 srcmaps.fits" 256
    ∈ (run_analysis gzip_fails (sample_args 0 (-1) true) three_sources).1
  ∧ existsb is_system (run_analysis gzip_fails (sample_args 0 5 true) three_sources).1 = false
  ∧ (run_analysis gzip_ok (sample_args 0 (-1) true) three_sources).2
    = (run_analysis gzip_fails (sample_args 0 (-1) true) three_sources).2.
Proof.
  pose proof (compress_last_and_optional gzip_fails (sample_args 0 (-1) true) three_sources)
    as (Hiff & _ & _ & Hsame).
  pose proof (compress_last_and_optional gzip_fails (sample_args 0 5 true) three_sources)
    as (_ & Hfail & _).
  split; [|split].
  - apply Hiff; reflexivity.
  - apply Hfail. by vm_compute.
  - apply (Hsame gzip_ok).
Defined.

(** ** The likelihood object holds one source at a time *)

(** C10.  At every point of every run the likelihood object holds at most
    one source of the catalog.  Each source that is added comes into an
    object that holds none, is alone in it, and is deleted two calls
    later, after its map is written, which leaves the object empty again;
    and so it is at the end of the run. *)
Theorem context_at_most_one_source os_system args srcNames :
  let tr := (run_analysis os_system args srcNames).1 in
  (∀ k : nat, (length (context_after (take k tr)) ≤ 1)%nat)
  ∧ (∀ (k : nat) (n : string), tr !! k = Some (AddSource n) →
       context_after (take k tr) = []
       ∧ context_after (take (k + 1) tr) = [n]
       ∧ tr !! (k + 2)%nat = Some (DeleteSource n)
       ∧ context_after (take (k + 3) tr) = [])
  ∧ context_after tr = [].
Proof.
  intros tr. pose proof (cycles_run_analysis os_system args srcNames) as Hcycles.
  split; [|split].
  - by apply cycles_context_take.
  - by apply cycles_add_deleted.
  - by apply cycles_context_end.
Qed.

Lemma context_at_most_one_source_witness :
  context_after (take 6 (run_analysis gzip_ok (sample_args 0 (-1) true) three_sources).1) = []
  ∧ context_after (take 7 (run_analysis gzip_ok (sample_args 0 (-1) true) three_sources).1)
    = ["E0"]
  ∧ (run_analysis gzip_ok (sample_args 0 (-1) true) three_sources).1 !! 8%nat
    = Some (DeleteSource "E0")
  ∧ context_after (take 9 (run_analysis gzip_ok (sample_args 0 (-1) true) three_sources).1) = [].
Proof.
  apply (proj1 (proj2 (context_at_most_one_source
                         gzip_ok (sample_args 0 (-1) true) three_sources)) 6%nat "E0").
  reflexivity.
Defined.

End WorkerFacts.

(** * Properties of the generator *)

Module GeneratorFacts.
Import Generator.

(** ** The number of jobs *)

Lemma float_limit_large : 2 ^ 53 < float_limit.
Proof. reflexivity. Qed.

(** For a positive divisor [exact_ceil] is the ceiling of the quotient. *)
Lemma exact_ceil_pos (n d : Z) :
  0 < d → (exact_ceil n d - 1) * d < n ≤ exact_ceil n d * d.
Proof.
  intros Hd. unfold exact_ceil.
  pose proof (Z.div_mod (- n) d ltac:(lia)).
  pose proof (Z.mod_pos_bound (- n) d Hd). nia.
Qed.

(** For a negative divisor and a length [n] it is not positive. *)
Lemma exact_ceil_neg (n d : Z) : 0 ≤ n → d < 0 → exact_ceil n d ≤ 0.
Proof.
  intros Hn Hd. unfold exact_ceil.
  rewrite <-(Z.opp_involutive d), Z.div_opp_opp by lia.
  pose proof (Z.div_pos n (- d) Hn ltac:(lia)). lia.
Qed.

(** The ceiling grows with the dividend. *)
Lemma exact_ceil_mono (n n' d : Z) : 0 < d → n ≤ n' → exact_ceil n d ≤ exact_ceil n' d.
Proof.
  intros Hd Hn.
  pose proof (exact_ceil_pos n d Hd). pose proof (exact_ceil_pos n' d Hd). nia.
Qed.

Lemma ceil_div_zero (n : Z) : ceil_div n 0 = Raise ZeroDivisionError.
Proof. done. Qed.

Lemma ceil_div_overflow (n d : Z) :
  float_limit ≤ Z.abs d → ceil_div n d = Raise OverflowError.
Proof.
  intros Hd. pose proof float_limit_large. unfold ceil_div.
  rewrite decide_False by lia. by rewrite decide_True.
Qed.

Lemma ceil_div_in_range (n d : Z) :
  d ≠ 0 → Z.abs d < float_limit → ceil_div n d = Ok (exact_ceil n d).
Proof.
  intros H0 Hd. unfold ceil_div. rewrite decide_False by done.
  by rewrite decide_False by lia.
Qed.

(** Inside the range of the floats, a positive divisor gives the ceiling
    of the quotient. *)
Lemma ceil_div_pos (n d : Z) :
  0 < d < float_limit → ∃ q, ceil_div n d = Ok q ∧ (q - 1) * d < n ≤ q * d.
Proof.
  intros Hd. exists (exact_ceil n d). split.
  - apply ceil_div_in_range; lia.
  - apply exact_ceil_pos. lia.
Qed.

Section Facts.
Context {B : Type} `{!NameFactory B}.
Variable make_nfs_path : string → string.
Variable make_key : Component.t → string → string.
Variable build_from_yamlfile : string → list Component.t.
Variable make_catalog_comp_dict : string → string → RetDict.

Local Abbreviation job_entry := (job_entry make_nfs_path make_key).
Local Abbreviation comp_jobs := (comp_jobs make_nfs_path make_key).
Local Abbreviation catalog_jobs := (catalog_jobs make_nfs_path make_key).
Local Abbreviation for_catalog := (for_catalog make_nfs_path make_key).
Local Abbreviation for_catalogs := (for_catalogs make_nfs_path make_key).

Lemma comp_jobs_ranges st c name info n_job comp :
  job_range <$> comp_jobs st c name info n_job comp
  = (λ i, (i * c, Z.min ((i + 1) * c) (n_cat_src info))) <$> seqZ 0 n_job.
Proof.
  unfold Generator.comp_jobs, Py.range. rewrite <-list_fmap_compose.
  apply list_fmap_ext. intros _ i _. unfold job_range. simpl.
  f_equal. f_equal. lia.
Qed.

Lemma catalog_jobs_no_job st c name info n_job components :
  n_job ≤ 0 → catalog_jobs st c name info n_job components = [].
Proof.
  intros Hn. unfold Generator.catalog_jobs.
  induction components as [|comp rest IH]; [done|].
  rewrite bind_cons, IH, app_nil_r.
  unfold Generator.comp_jobs, Py.range. by rewrite seqZ_nil.
Qed.

(** ** The partition of a catalog *)

(** One turn of the loop over the catalogs, when the division returns. *)
Lemma for_catalog_stores st c components job_configs name info n_job :
  ceil_div (n_cat_src info) c = Ok n_job →
  for_catalog st c components job_configs (name, info)
  = Ok (foldl store job_configs (components ≫= comp_jobs st c name info n_job)).
Proof. intros Hq. unfold Generator.for_catalog. by rewrite Hq. Qed.

Lemma for_catalog_overflow st c components job_configs name info :
  float_limit ≤ Z.abs c →
  for_catalog st c components job_configs (name, info) = Raise OverflowError.
Proof.
  intros Hc. unfold Generator.for_catalog. by rewrite ceil_div_overflow.
Qed.

(** C1, as the code has it.  For a catalog of fewer than 2^53 sources and
    [nsrc] at least 1 and below [float_limit], the division does not raise
    and [n_job] is the ceiling of the number of sources over [nsrc].  The
    turn of the catalog in the loop stores, for every component in turn,
    the jobs of the chunks 0 to [n_job - 1], and for a library of this one
    catalog these are what the generator returns.  Job [i] of a component
    has the range from [i * nsrc] to the smaller of [(i + 1) * nsrc] and
    the number of sources.  No range is empty, each ends where or before
    the next one starts, and an index lies in a range exactly when it is an
    index of the catalog.  A catalog without sources gives no range, and
    its turn of the loop leaves the dictionary as it was, without an error.
    With [nsrc] from [float_limit] on, the turn of a catalog raises
    [OverflowError]. *)
Theorem catalog_partition st c name info comp :
  1 ≤ c → n_cat_src info < 2 ^ 53 →
  (c < float_limit →
   ∃ n_job,
     ceil_div (n_cat_src info) c = Ok n_job
     ∧ (n_job - 1) * c < n_cat_src info ≤ n_job * c
     ∧ (∀ components job_configs,
          for_catalog st c components job_configs (name, info)
          = Ok (foldl store job_configs (components ≫= comp_jobs st c name info n_job)))
     ∧ (∀ st0 args,
          nsrc args = c → update_base_dict st0 (data args) = st →
          catalog_info_dict (loaded_ret_dict make_catalog_comp_dict st0 args)
          = [ (name, info) ] →
          (build_job_configs make_nfs_path make_key build_from_yamlfile
             make_catalog_comp_dict st0 args).2
          = Ok (foldl store ∅
                  (build_from_yamlfile (Generator.comp args)
                     ≫= comp_jobs st c name info n_job)))
     ∧ (let ranges := job_range <$> comp_jobs st c name info n_job comp in
        length ranges = Z.to_nat n_job
        ∧ (∀ i : nat, Z.of_nat i < n_job →
             ranges !! i
             = Some (Z.of_nat i * c, Z.min ((Z.of_nat i + 1) * c) (n_cat_src info)))
        ∧ (∀ (i : nat) r, ranges !! i = Some r → r.1 < r.2)
        ∧ (∀ (i j : nat) r r', (i < j)%nat →
             ranges !! i = Some r → ranges !! j = Some r' → r.2 ≤ r'.1)
        ∧ (∀ k, 0 ≤ k < n_cat_src info ↔ ∃ r, r ∈ ranges ∧ r.1 ≤ k < r.2))
     ∧ (n_cat_src info = 0 →
        comp_jobs st c name info n_job comp = []
        ∧ ∀ components job_configs,
            for_catalog st c components job_configs (name, info) = Ok job_configs))
  ∧ (float_limit ≤ c →
     ∀ components job_configs,
       for_catalog st c components job_configs (name, info) = Raise OverflowError).
Proof.
  intros Hc Hsize. split; [|by intros; apply for_catalog_overflow; lia].
  intros Hlimit.
  destruct (ceil_div_pos (n_cat_src info) c ltac:(lia)) as (q & Hq & Hceil).
  assert (0 ≤ n_cat_src info) as HN by (unfold n_cat_src; lia).
  assert (0 ≤ q) as Hq0 by nia.
  exists q. split; [done|]. split; [done|].
  split; [by intros; apply for_catalog_stores|].
  split.
  { intros st0 args Hnsrc Hst Hitems.
    unfold build_job_configs, loaded_ret_dict in *. cbn [snd].
    rewrite Hitems, Hst, Hnsrc. cbn [Generator.for_catalogs].
    by rewrite (for_catalog_stores _ _ _ _ _ _ q). }
  split.
  - cbn zeta. rewrite comp_jobs_ranges.
    assert (Hlookup : ∀ (i : nat) r,
              ((λ i, (i * c, Z.min ((i + 1) * c) (n_cat_src info))) <$> seqZ 0 q) !! i
              = Some r ↔
              Z.of_nat i < q
              ∧ r = (Z.of_nat i * c, Z.min ((Z.of_nat i + 1) * c) (n_cat_src info))).
    { intros i r. rewrite list_lookup_fmap, fmap_Some.
      setoid_rewrite lookup_seqZ. split.
      - intros (x & [-> ?] & ->). split; [done|]. by rewrite Z.add_0_l.
      - intros [? ->]. exists (Z.of_nat i). split; [split; [lia|done]|done]. }
    split; [by rewrite length_fmap, length_seqZ|].
    split; [intros i Hi; by apply Hlookup|].
    split; [|split].
    + intros i r [Hi ->]%Hlookup. simpl. nia.
    + intros i j r r' Hij [Hi ->]%Hlookup [Hj ->]%Hlookup. simpl. nia.
    + intros k. split.
      * intros Hk. exists (k `div` c * c, Z.min ((k `div` c + 1) * c) (n_cat_src info)).
        pose proof (Z.div_mod k c ltac:(lia)).
        pose proof (Z.mod_pos_bound k c ltac:(lia)).
        assert (0 ≤ k `div` c) by (apply Z.div_pos; lia).
        split; [|simpl; nia].
        apply list_elem_of_lookup. exists (Z.to_nat (k `div` c)).
        apply Hlookup. rewrite Z2Nat.id by done. split; [nia|done].
      * intros (r & [i [Hi ->]%Hlookup]%list_elem_of_lookup & Hk). simpl in Hk. nia.
  - intros HN0. assert (q = 0) as -> by nia.
    split; [by unfold Generator.comp_jobs, Py.range; rewrite seqZ_nil|].
    intros components job_configs. rewrite (for_catalog_stores _ _ _ _ _ _ 0) by done.
    change (components ≫= comp_jobs st c name info 0)
      with (catalog_jobs st c name info 0 components).
    by rewrite catalog_jobs_no_job.
Qed.

(** ** A chunk size that is not positive *)

Lemma for_catalogs_negative st c components items : ∀ job_configs,
  - float_limit < c < 0 → for_catalogs st c components job_configs items = Ok job_configs.
Proof.
  induction items as [|[name info] rest IH]; intros job_configs Hc; [done|].
  cbn [Generator.for_catalogs Generator.for_catalog].
  rewrite ceil_div_in_range by lia.
  rewrite catalog_jobs_no_job by (apply exact_ceil_neg; unfold n_cat_src; lia).
  simpl. by apply IH.
Qed.

Lemma for_catalogs_zero st components job_configs item rest :
  for_catalogs st 0 components job_configs (item :: rest) = Raise ZeroDivisionError.
Proof. by destruct item. Qed.

Lemma for_catalogs_overflow st c components job_configs item rest :
  float_limit ≤ Z.abs c →
  for_catalogs st c components job_configs (item :: rest) = Raise OverflowError.
Proof.
  intros Hc. destruct item as [name info]. cbn [Generator.for_catalogs].
  by rewrite for_catalog_overflow.
Qed.

(** C5, as the code has it.  The generator does not check [nsrc].  With at
    least one catalog: [nsrc = 0] makes the division of line 178 raise
    [ZeroDivisionError]; an [nsrc] at or below [- float_limit], which does
    not convert to a float, makes it raise [OverflowError]; in both cases
    no dictionary is returned.  With any other negative [nsrc], or without
    any catalog, nothing is raised: every catalog gets no job and the
    dictionary returned is empty. *)
Theorem nsrc_not_positive st args :
  nsrc args ≤ 0 →
  (build_job_configs make_nfs_path make_key build_from_yamlfile
     make_catalog_comp_dict st args).2
  = match catalog_info_dict (loaded_ret_dict make_catalog_comp_dict st args) with
    | [] => Ok ∅
    | _ :: _ =>
        if decide (nsrc args = 0) then Raise ZeroDivisionError
        else if decide (nsrc args ≤ - float_limit) then Raise OverflowError
        else Ok ∅
    end.
Proof.
  intros Hc. unfold build_job_configs, loaded_ret_dict. cbn [snd].
  destruct (catalog_info_dict _) as [|item rest]; [done|].
  case_decide as H0; [rewrite H0; apply for_catalogs_zero|].
  case_decide as Hover.
  - apply for_catalogs_overflow. lia.
  - apply for_catalogs_negative. lia.
Qed.

(** ** The keys of the dictionary *)

(** The key of a job is made from the component and the number of the
    chunk; the catalog does not enter. *)
Lemma full_key_same_for_every_catalog st c name info name' info' comp i_job :
  (job_entry st c name info comp i_job).1 = (job_entry st c name' info' comp i_job).1.
Proof. reflexivity. Qed.

(** So the job of a later catalog replaces the job an earlier catalog
    stored for the same component and chunk. *)
Lemma later_catalog_overwrites st c name info name' info' comp i_job job_configs :
  store (store job_configs (job_entry st c name info comp i_job))
        (job_entry st c name' info' comp i_job)
  = store job_configs (job_entry st c name' info' comp i_job).
Proof. unfold store. simpl. apply insert_insert_eq. Qed.

Lemma lookup_foldl_store_other (l : list (string * Job.t)) : ∀ job_configs key,
  key ∉ l.*1 → foldl store job_configs l !! key = job_configs !! key.
Proof.
  induction l as [|kv l IH]; intros job_configs key Hkey; [done|].
  rewrite fmap_cons, not_elem_of_cons in Hkey. destruct Hkey as [Hne Hkey].
  cbn [foldl]. rewrite IH by done. unfold store. by rewrite lookup_insert_ne.
Qed.

(** What is stored last under a key decides: the dictionary before the
    loop matters only at the keys the loop does not store. *)
Lemma foldl_store_ext (l : list (string * Job.t)) : ∀ job_configs job_configs',
  (∀ key, key ∉ l.*1 → job_configs !! key = job_configs' !! key) →
  foldl store job_configs l = foldl store job_configs' l.
Proof.
  induction l as [|kv l IH]; intros job_configs job_configs' Hsame.
  - apply map_eq. intros key. apply Hsame. rewrite fmap_nil. apply not_elem_of_nil.
  - cbn [foldl]. apply IH. intros key Hkey. unfold store.
    destruct (decide (kv.1 = key)) as [->|Hne].
    + by rewrite !lookup_insert_eq.
    + rewrite !lookup_insert_ne by done. apply Hsame.
      rewrite fmap_cons, not_elem_of_cons. auto.
Qed.

Lemma catalog_jobs_keys st c name info n_job components :
  (catalog_jobs st c name info n_job components).*1
  = components ≫= λ comp, full_key make_key comp <$> Py.range n_job.
Proof.
  unfold Generator.catalog_jobs.
  induction components as [|comp rest IH]; [done|].
  rewrite !bind_cons, fmap_app, IH. f_equal.
  unfold Generator.comp_jobs. rewrite <-list_fmap_compose. done.
Qed.

(** Two catalogs that need the same number of jobs: every job of the first
    is replaced by a job of the second, and the dictionary is the one the
    second catalog alone would give. *)
Lemma earlier_catalog_lost st c components job_configs name info name' info' :
  c ≠ 0 → length (catalog_table info) = length (catalog_table info') →
  for_catalogs st c components job_configs [ (name, info); (name', info') ]
  = for_catalogs st c components job_configs [ (name', info') ].
Proof.
  intros Hc Hlen. cbn [Generator.for_catalogs Generator.for_catalog].
  unfold n_cat_src, ceil_div. rewrite Hlen, decide_False by done.
  case_decide; [done|].
  f_equal. apply foldl_store_ext. intros key Hkey.
  apply lookup_foldl_store_other.
  by rewrite catalog_jobs_keys in Hkey |- *.
Qed.

(** ** Determinism *)

(** When loading the same data file twice leaves [base_dict] as loading
    it once does, a second run in the same process, which starts from
    the state the first run left, repeats the first. *)
Lemma build_job_configs_again st args :
  (∀ s d, update_base_dict (update_base_dict s d) d = update_base_dict s d) →
  let first := build_job_configs make_nfs_path make_key build_from_yamlfile
                 make_catalog_comp_dict st args in
  build_job_configs make_nfs_path make_key build_from_yamlfile
    make_catalog_comp_dict first.1.1 args
  = first.
Proof. intros Hidem. unfold build_job_configs. cbn [fst]. by rewrite Hidem. Qed.

Lemma job_entry_same st1 st2 c name info1 info2 component i :
  same_names st1 st2 →
  srcmdl_name info1 = srcmdl_name info2 →
  length (catalog_table info1) = length (catalog_table info2) →
  job_entry st1 c name info1 component i
  = job_entry st2 c name info2 component i.
Proof.
  intros [Hirf Hnames] Hmdl Hlen.
  unfold job_entry, job_outfile, full_key, n_cat_src.
  assert (name_keys st1 name component = name_keys st2 name component) as Hkeys.
  { unfold name_keys. by rewrite Hirf. }
  rewrite Hkeys, Hmdl, Hlen.
  destruct (Hnames (name_keys st2 name component)) as (-> & -> & -> & -> & ->); done.
Qed.

Lemma for_catalog_same st1 st2 c components job_configs item1 item2 :
  same_names st1 st2 → catalog_view item1 = catalog_view item2 →
  for_catalog st1 c components job_configs item1
  = for_catalog st2 c components job_configs item2.
Proof.
  intros Hnames Hview. destruct item1 as [name1 info1], item2 as [name2 info2].
  unfold catalog_view in Hview. cbn [fst snd] in Hview.
  injection Hview as -> Hmdl Hlen.
  unfold for_catalog, n_cat_src. rewrite Hlen.
  destruct (ceil_div _ c) as [n_job|e]; [|done].
  f_equal. f_equal. unfold catalog_jobs, comp_jobs.
  apply list_bind_ext; [|done]. intros component.
  apply list_fmap_ext. intros _ i _. by apply job_entry_same.
Qed.

Lemma for_catalogs_same st1 st2 c components items1 : ∀ items2 job_configs,
  same_names st1 st2 → catalog_view <$> items1 = catalog_view <$> items2 →
  for_catalogs st1 c components job_configs items1
  = for_catalogs st2 c components job_configs items2.
Proof.
  induction items1 as [|item1 items1 IH]; intros [|item2 items2] job_configs Hnames Hviews;
    try done.
  rewrite !fmap_cons in Hviews.
  assert (catalog_view item1 = catalog_view item2) as Hview by congruence.
  assert (catalog_view <$> items1 = catalog_view <$> items2) as Htail by congruence.
  cbn [for_catalogs].
  rewrite (for_catalog_same st1 st2 c components job_configs item1 item2) by done.
  destruct (for_catalog st2 c components job_configs item2); [|done].
  by apply IH.
Qed.

(** C7.  The table the generator returns is a function of the binning
    components, of [nsrc], of the catalogs as far as their names, model
    file names and numbers of sources go, and of the paths [NAME_FACTORY]
    resolves once the data file is loaded: two runs that agree on these
    return the same dictionary, with the same path strings in every entry,
    or raise the same exception, whatever else differs between them (the
    [make_xml] flag, the names of the library and data files, the state of
    [NAME_FACTORY] before the data file is loaded, the sources of the
    catalogs and their split models). *)
Theorem same_inputs_same_table st1 st2 args1 args2 :
  let run st a := build_job_configs make_nfs_path make_key build_from_yamlfile
                    make_catalog_comp_dict st a in
  build_from_yamlfile (comp args1) = build_from_yamlfile (comp args2) →
  nsrc args1 = nsrc args2 →
  same_names (update_base_dict st1 (data args1)) (update_base_dict st2 (data args2)) →
  catalog_view <$> catalog_info_dict (loaded_ret_dict make_catalog_comp_dict st1 args1)
  = catalog_view <$> catalog_info_dict (loaded_ret_dict make_catalog_comp_dict st2 args2) →
  (run st1 args1).2 = (run st2 args2).2.
Proof.
  intros run Hcomp Hnsrc Hnames Hviews. unfold run, build_job_configs. cbn [snd].
  rewrite Hcomp, Hnsrc. by apply for_catalogs_same.
Qed.

(** ** The [make_xml] flag *)

(** C9.  The [make_xml] flag decides only whether the model files are
    written (and their names printed): the dictionary returned, or the
    exception raised, and the state of [NAME_FACTORY] are the same for
    both values of the flag; without the flag nothing is written. *)
Theorem make_xml_only_writes st args flag :
  let run a := build_job_configs make_nfs_path make_key build_from_yamlfile
                 make_catalog_comp_dict st a in
  (run (with_make_xml flag args)).2 = (run args).2
  ∧ (run (with_make_xml flag args)).1.1 = (run args).1.1
  ∧ (run (with_make_xml false args)).1.2 = []
  ∧ (run (with_make_xml true args)).1.2
    = _make_xml_files
        (catalog_info_dict (loaded_ret_dict make_catalog_comp_dict st args))
        (comp_info_dict (loaded_ret_dict make_catalog_comp_dict st args)).
Proof. done. Qed.

End Facts.

(** ** Sample runs of the generator *)

(** The sample naming policy loads a data file idempotently. *)
Example sample_update_idempotent (st : Sample.base_dict) (d : string) :
  update_base_dict (update_base_dict st d) d = update_base_dict st d.
Proof. done. Qed.

Lemma same_inputs_same_table_witness :
  (Sample.build_job_configs "catalog.yaml" 500 true).2
  = (build_job_configs Sample.make_nfs_path Sample.make_key Sample.build_from_yamlfile
       Sample.make_catalog_comp_dict Sample.NAME_FACTORY_loaded
       (Sample.args "library.yaml" 500 false)).2.
Proof.
  apply (same_inputs_same_table Sample.make_nfs_path Sample.make_key
           Sample.build_from_yamlfile Sample.make_catalog_comp_dict
           Sample.NAME_FACTORY Sample.NAME_FACTORY_loaded
           (Sample.args "catalog.yaml" 500 true) (Sample.args "library.yaml" 500 false)).
  - reflexivity.
  - reflexivity.
  - split; [reflexivity|]. intros nk _ _. repeat split.
  - reflexivity.
Defined.

(** 1200 sources in chunks of 500, for one component. *)
Example sample_ranges :
  job_range <$> comp_jobs Sample.make_nfs_path Sample.make_key Sample.NAME_FACTORY 500
                  "3FGL" (Sample.catalog "3FGL" 1200) 3 (Sample.component "E0")
  = [ (0, 500); (500, 1000); (1000, 1200) ].
Proof. by vm_compute. Qed.

(** The same catalog and two components: six jobs. *)
Example sample_six_jobs :
  ∃ job_configs,
    (Sample.build_job_configs "catalog.yaml" 500 false).2 = Ok job_configs
    ∧ size job_configs = 6%nat
    ∧ NoDup (Job.outfile <$> (map_to_list job_configs).*2).
Proof.
  eexists. split; [by vm_compute|]. split; [by vm_compute|].
  apply (bool_decide_unpack _). by vm_compute.
Qed.

Lemma catalog_partition_witness :
  ∃ n_job,
    ceil_div (n_cat_src (Sample.catalog "3FGL" 1200)) 500 = Ok n_job
    ∧ (n_job - 1) * 500 < n_cat_src (Sample.catalog "3FGL" 1200) ≤ n_job * 500
    ∧ (∀ components job_configs,
         for_catalog Sample.make_nfs_path Sample.make_key Sample.NAME_FACTORY_loaded 500
           components job_configs ("3FGL", Sample.catalog "3FGL" 1200)
         = Ok (foldl store job_configs
                 (components
                    ≫= comp_jobs Sample.make_nfs_path Sample.make_key
                         Sample.NAME_FACTORY_loaded 500 "3FGL"
                         (Sample.catalog "3FGL" 1200) n_job))).
Proof.
  destruct (proj1 (catalog_partition Sample.make_nfs_path Sample.make_key
                     Sample.build_from_yamlfile Sample.make_catalog_comp_dict
                     Sample.NAME_FACTORY_loaded 500 "3FGL" (Sample.catalog "3FGL" 1200)
                     (Sample.component "E0") ltac:(by vm_compute) ltac:(by vm_compute))
              ltac:(by vm_compute))
    as (n_job & Hq & Hceil & Hstore & _).
  exists n_job. split; [exact Hq|]. split; [exact Hceil|exact Hstore].
Defined.

(** An [nsrc] that does not convert to a float: the generator raises
    [OverflowError] and returns no range at all. *)
Lemma huge_nsrc_overflows :
  (Sample.build_job_configs "catalog.yaml" (2 ^ 1024) false).2 = Raise OverflowError.
Proof. by vm_compute. Qed.

(** C2 fails on a library of two catalogs.  Two catalogs of one source
    each and two components make four jobs, which the loops store under
    two keys only: the dictionary returned has two entries, both of the
    catalog that came last, and the two jobs of the first catalog are
    gone. *)
Theorem two_catalogs_share_keys :
  let stored catalog_name :=
    catalog_jobs Sample.make_nfs_path Sample.make_key Sample.NAME_FACTORY_loaded 500
      catalog_name (Sample.catalog catalog_name 1) 1
      (Sample.build_from_yamlfile "binning.yaml") in
  length (stored "3FGL" ++ stored "4FGL") = 4%nat
  ∧ (stored "3FGL").*1 = [ "E0_PSF3_00"; "E1_PSF3_00" ]
  ∧ (stored "4FGL").*1 = [ "E0_PSF3_00"; "E1_PSF3_00" ]
  ∧ ∃ job_configs,
      (Sample.build_job_configs "two_catalogs.yaml" 500 false).2 = Ok job_configs
      ∧ size job_configs = 2%nat
      ∧ map_to_list job_configs ≡ₚ stored "4FGL".
Proof.
  cbn zeta. split; [by vm_compute|]. split; [by vm_compute|]. split; [by vm_compute|].
  eexists. split; [by vm_compute|]. split; [by vm_compute|].
  apply (bool_decide_unpack _). by vm_compute.
Qed.

(** A negative [nsrc] is not rejected: the run returns an empty
    dictionary. *)
Lemma negative_nsrc_not_rejected :
  (Sample.build_job_configs "catalog.yaml" (-500) false).2 = Ok ∅
  ∧ ¬ ∃ e, (Sample.build_job_configs "catalog.yaml" (-500) false).2 = Raise e.
Proof.
  assert ((Sample.build_job_configs "catalog.yaml" (-500) false).2 = Ok ∅) as ->
    by by vm_compute.
  split; [done|]. by intros [e ?].
Qed.

Lemma nsrc_not_positive_witness :
  (Sample.build_job_configs "catalog.yaml" 0 false).2 = Raise ZeroDivisionError
  ∧ (Sample.build_job_configs "catalog.yaml" (- 2 ^ 1024) false).2 = Raise OverflowError.
Proof.
  split.
  - apply (nsrc_not_positive Sample.make_nfs_path Sample.make_key
             Sample.build_from_yamlfile Sample.make_catalog_comp_dict
             Sample.NAME_FACTORY (Sample.args "catalog.yaml" 0 false)).
    by vm_compute.
  - apply (nsrc_not_positive Sample.make_nfs_path Sample.make_key
             Sample.build_from_yamlfile Sample.make_catalog_comp_dict
             Sample.NAME_FACTORY (Sample.args "catalog.yaml" (- 2 ^ 1024) false)).
    by vm_compute.
Defined.

End GeneratorFacts.


(** * Line 178 in floating point *)

Module Binary64Facts.
Import Generator Generator.Binary64 GeneratorFacts.

Lemma pow2_pos e : 0 < pow2 e.
Proof. unfold pow2. apply Z.pow_pos_nonneg; lia. Qed.

Lemma pow2_nonpos e : e ≤ 0 → pow2 e = 1.
Proof. intros H. unfold pow2. by rewrite Z.max_l by lia. Qed.

Lemma pow2_nonneg e : 0 ≤ e → pow2 e = 2 ^ e.
Proof. intros H. unfold pow2. by rewrite Z.max_r by lia. Qed.

Section Round.
Variables a b : Z.
Hypothesis Hb : 0 < b.

Lemma round_half_even_le K : a ≤ K * b → round_half_even a b ≤ K.
Proof.
  intros H. unfold round_half_even.
  pose proof (Z.div_mod a b ltac:(lia)) as Hdm.
  pose proof (Z.mod_pos_bound a b Hb) as Hr.
  repeat case_decide; try nia.
  destruct (Z.even _); nia.
Qed.

Lemma round_half_even_ge K : K * b ≤ a → K ≤ round_half_even a b.
Proof.
  intros H. unfold round_half_even.
  pose proof (Z.div_mod a b ltac:(lia)) as Hdm.
  pose proof (Z.mod_pos_bound a b Hb) as Hr.
  repeat case_decide; try nia.
  destruct (Z.even _); nia.
Qed.

Lemma round_half_even_lt K : 2 * a < (2 * K - 1) * b → round_half_even a b ≤ K - 1.
Proof.
  intros H. unfold round_half_even.
  pose proof (Z.div_mod a b ltac:(lia)) as Hdm.
  pose proof (Z.mod_pos_bound a b Hb) as Hr.
  repeat case_decide; try nia.
  destruct (Z.even _); nia.
Qed.

Lemma round_half_even_gt K : (2 * K + 1) * b < 2 * a → K + 1 ≤ round_half_even a b.
Proof.
  intros H. unfold round_half_even.
  pose proof (Z.div_mod a b ltac:(lia)) as Hdm.
  pose proof (Z.mod_pos_bound a b Hb) as Hr.
  repeat case_decide; try nia.
  destruct (Z.even _); nia.
Qed.

Lemma round_half_even_tie_up K :
  Z.even K = true → (2 * K - 1) * b ≤ 2 * a → K ≤ round_half_even a b.
Proof.
  intros HK H. unfold round_half_even.
  pose proof (Z.div_mod a b ltac:(lia)) as Hdm.
  pose proof (Z.mod_pos_bound a b Hb) as Hr.
  repeat case_decide; try nia.
  destruct (Z.even (a `div` b)) eqn:Heven; [|nia].
  assert (a `div` b = K - 1 ∨ K ≤ a `div` b) as [Heq|?] by nia; [|lia].
  rewrite Heq in Heven. rewrite Z.even_sub in Heven. rewrite HK in Heven. done.
Qed.
End Round.

Lemma log2_ratio_lower p q :
  0 < p → 0 < q → q * pow2 (log2_ratio p q) ≤ p * pow2 (- log2_ratio p q).
Proof.
  intros Hp Hq. unfold log2_ratio. case_decide as Htest; [done|].
  pose proof (Z.log2_spec p Hp) as [Hpl _].
  pose proof (Z.log2_spec q Hq) as [_ Hqu].
  pose proof (Z.log2_nonneg p) as Hlp. pose proof (Z.log2_nonneg q) as Hlq.
  set (lp := Z.log2 p) in *. set (lq := Z.log2 q) in *.
  destruct (decide (0 ≤ lp - lq - 1)) as [Hpos|Hneg].
  - rewrite (pow2_nonneg (lp - lq - 1)) by done.
    rewrite pow2_nonpos by lia.
    assert (2 ^ lp = 2 ^ Z.succ lq * 2 ^ (lp - lq - 1)) as Hsplit.
    { rewrite <-Z.pow_add_r by lia. f_equal. lia. }
    assert (0 < 2 ^ (lp - lq - 1)) by (apply Z.pow_pos_nonneg; lia).
    nia.
  - rewrite (pow2_nonpos (lp - lq - 1)) by lia.
    rewrite pow2_nonneg by lia.
    assert (2 ^ Z.succ lq = 2 ^ lp * 2 ^ (- (lp - lq - 1))) as Hsplit.
    { rewrite <-Z.pow_add_r by lia. f_equal. lia. }
    assert (0 < 2 ^ (- (lp - lq - 1))) by (apply Z.pow_pos_nonneg; lia).
    nia.
Qed.

(** The exponent chosen for a quotient [n / d] with [n] below 2^53. *)
Lemma nearest_scale p q n d :
  0 < p → 0 < q → 0 < d → 0 < n < 2 ^ 53 → p * d = n * q → d < 2 ^ 1024 →
  let e := Z.max emin (log2_ratio p q - 52) in
  e ≤ 0 ∧ d < 2 * pow2 (- e).
Proof.
  intros Hp Hq Hd Hn Hpq Hlim e.
  pose proof (log2_ratio_lower p q Hp Hq) as Hlow.
  set (L := log2_ratio p q) in *.
  assert (d * pow2 L ≤ n * pow2 (- L)) as Hlow'.
  { apply (Z.mul_le_mono_pos_l _ _ q); [done|].
    replace (q * (d * pow2 L)) with (d * (q * pow2 L)) by ring.
    replace (q * (n * pow2 (- L))) with (d * (p * pow2 (- L)))
      by (rewrite Z.mul_assoc, (Z.mul_comm d p), Hpq; ring).
    apply Z.mul_le_mono_nonneg_l; lia. }
  assert (L ≤ 52) as HL.
  { destruct (decide (L ≤ 52)) as [|Hbig]; [done|].
    rewrite (pow2_nonneg L), (pow2_nonpos (- L)) in Hlow' by lia.
    assert (2 ^ 53 ≤ 2 ^ L) by (apply Z.pow_le_mono_r; lia). nia. }
  split; [unfold e, emin; lia|].
  destruct (decide (L - 52 ≤ emin)) as [Hclamp|Hfree].
  - unfold e. rewrite Z.max_l by done. unfold emin. rewrite pow2_nonneg by lia.
    assert (2 ^ 1024 ≤ 2 ^ (- -1074)) as Hpow by (apply Z.pow_le_mono_r; lia).
    assert (0 < 2 ^ (- -1074)) as Hpos by (apply Z.pow_pos_nonneg; lia).
    apply Z.lt_le_trans with (2 ^ 1024); [done|].
    etrans; [exact Hpow|]. clear -Hpos. set (X := 2 ^ _) in *. lia.
  - unfold e. rewrite Z.max_r by lia. rewrite pow2_nonneg by lia.
    destruct (decide (0 ≤ L)) as [HL0|HL0].
    + rewrite (pow2_nonneg L) in Hlow' by done.
      rewrite (pow2_nonpos (- L)) in Hlow' by lia.
      assert (2 * 2 ^ (- (L - 52)) = 2 ^ (53 - L)) as ->.
      { rewrite <-(Z.pow_succ_r 2) by lia. f_equal. lia. }
      assert (2 ^ 53 = 2 ^ L * 2 ^ (53 - L)) as Hsplit.
      { rewrite <-Z.pow_add_r by lia. f_equal. lia. }
      assert (0 < 2 ^ L) by (apply Z.pow_pos_nonneg; lia).
      destruct Hn as [_ Hn]. rewrite Hsplit in Hn. clear Hsplit Hlim.
      apply (Z.mul_lt_mono_pos_l (2 ^ L)); [done|]. lia.
    + rewrite (pow2_nonpos L) in Hlow' by lia.
      rewrite (pow2_nonneg (- L)) in Hlow' by lia.
      assert (2 * 2 ^ (- (L - 52)) = 2 ^ 53 * 2 ^ (- L)) as ->.
      { rewrite <-(Z.pow_succ_r 2) by lia. rewrite <-Z.pow_add_r by lia. f_equal. lia. }
      assert (0 < 2 ^ (- L)) by (apply Z.pow_pos_nonneg; lia).
      destruct Hn as [_ Hn]. clear Hlim.
      apply Z.le_lt_trans with (n * 2 ^ (- L)); [lia|].
      by apply Z.mul_lt_mono_pos_r.
Qed.

(** The float nearest to [n / d], [n] below 2^53: it lies between the same
    integers as the quotient. *)
Lemma nearest_bounds p q n d :
  0 < p → 0 < q → 0 < d → 0 < n < 2 ^ 53 → p * d = n * q → d < 2 ^ 1024 →
  0 < den (nearest p q)
  ∧ ∀ k,
      ((k - 1) * d < n ≤ k * d →
       (k - 1) * den (nearest p q) < num (nearest p q) ≤ k * den (nearest p q))
      ∧ (k * d ≤ n < (k + 1) * d →
         k * den (nearest p q) ≤ num (nearest p q) < (k + 1) * den (nearest p q)).
Proof.
  intros Hp Hq Hd Hn Hpq Hlim.
  destruct (nearest_scale p q n d Hp Hq Hd Hn Hpq Hlim) as [He Hs].
  destruct Hn as [Hn _]. clear Hlim.
  unfold nearest. rewrite decide_False by lia. cbn [num den].
  set (e := Z.max emin (log2_ratio p q - 52)) in *.
  rewrite (pow2_nonpos e) by done. rewrite !Z.mul_1_r.
  pose proof (pow2_pos (- e)) as Hspos. set (s := pow2 (- e)) in *.
  split; [done|]. intros k. split.
  - intros [Hk1 Hk2]. split.
    + cut ((k - 1) * s + 1 ≤ round_half_even (p * s) q); [lia|].
      apply round_half_even_gt; [done|].
      assert (q * d < 2 * s * (q * (n - (k - 1) * d))) by nia.
      apply (Z.mul_lt_mono_pos_r d); [done|]. nia.
    + apply round_half_even_le; [done|].
      assert (p * d ≤ k * q * d) by nia.
      assert (p ≤ k * q) by (apply (Z.mul_le_mono_pos_r _ _ d); done).
      nia.
  - intros [Hk1 Hk2]. split.
    + apply round_half_even_ge; [done|].
      assert (k * q * d ≤ p * d) by nia.
      assert (k * q ≤ p) by (apply (Z.mul_le_mono_pos_r _ _ d); done).
      nia.
    + cut (round_half_even (p * s) q ≤ (k + 1) * s - 1); [lia|].
      apply round_half_even_lt; [done|].
      assert (q * d < 2 * s * (q * ((k + 1) * d - n))) by nia.
      apply (Z.mul_lt_mono_pos_r d); [done|]. nia.
Qed.

Lemma pow2_53_lt_1024 : 2 ^ 53 < 2 ^ 1024.
Proof. apply Z.pow_lt_mono_r; lia. Qed.

Lemma sgn_mul_abs z c : Z.sgn z * (Z.abs z * c) = z * c.
Proof. rewrite Z.mul_assoc. f_equal. lia. Qed.

(** [float(z)] is exact for [z] below 2^53. *)
Lemma of_int_small z :
  Z.abs z < 2 ^ 53 → ∃ c, 0 < c ∧ of_int z = Ok {| num := z * c; den := c |}.
Proof.
  intros Hz. pose proof pow2_53_lt_1024 as Hlim. unfold of_int.
  destruct (decide (z = 0)) as [->|Hne].
  { exists 1. split; [done|]. unfold nearest. change (Z.abs 0) with 0.
    rewrite (decide_True (P := 0 = 0)) by done.
    rewrite decide_False; [done|]. unfold is_inf. cbn [num den].
    change (Z.abs 0) with 0.
    assert (0 < 2 ^ 1024) by (apply Z.pow_pos_nonneg; lia). lia. }
  destruct (nearest_bounds (Z.abs z) 1 (Z.abs z) 1) as [Hden Hnum]; try lia.
  destruct (Hnum (Z.abs z)) as [Hup Hdown].
  set (x := nearest (Z.abs z) 1) in *.
  assert (num x = Z.abs z * den x) as Hx by lia.
  exists (den x). split; [done|].
  rewrite decide_False.
  - by rewrite Hx, sgn_mul_abs.
  - unfold is_inf. rewrite Hx. rewrite Z.abs_mul, Z.abs_idemp.
    rewrite (Z.abs_eq (den x)) by lia.
    intros Hinf. apply Z.mul_le_mono_pos_r in Hinf; [lia|done].
Qed.

Lemma log2_ratio_int a : 0 < a → log2_ratio a 1 = Z.log2 a.
Proof.
  intros Ha. unfold log2_ratio. rewrite Z.log2_1, Z.sub_0_r.
  pose proof (Z.log2_nonneg a). pose proof (Z.log2_spec a Ha) as [Hlow _].
  rewrite decide_True; [done|].
  rewrite pow2_nonneg, pow2_nonpos by lia. lia.
Qed.

(** [float(z)] from 2^53 on: an integer not below 2^53, or too large. *)
Lemma of_int_large z :
  2 ^ 53 ≤ Z.abs z →
  (float_limit ≤ Z.abs z → of_int z = Raise OverflowError)
  ∧ (Z.abs z < float_limit →
     ∃ v, 2 ^ 53 ≤ v < 2 ^ 1024 ∧ of_int z = Ok {| num := Z.sgn z * v; den := 1 |}).
Proof.
  intros Hz. set (a := Z.abs z) in *.
  assert (0 < 2 ^ 53) as H53 by (apply Z.pow_pos_nonneg; lia).
  assert (0 < a) as Ha by lia.
  pose proof (Z.log2_spec a Ha) as [Hlow Hhigh].
  assert (53 ≤ Z.log2 a) as Hl by (by apply Z.log2_le_pow2).
  unfold of_int, nearest. fold a. rewrite (decide_False (P := a = 0)) by lia.
  rewrite log2_ratio_int by done. set (l := Z.log2 a) in *.
  rewrite Z.max_r by (unfold emin; lia).
  rewrite (pow2_nonneg (l - 52)), (pow2_nonpos (- (l - 52))) by lia.
  rewrite Z.mul_1_r, Z.mul_1_l. unfold is_inf. cbn [num den].
  assert (0 < 2 ^ (l - 52)) as HE by (apply Z.pow_pos_nonneg; lia).
  assert (2 ^ l = 2 ^ 52 * 2 ^ (l - 52)) as Hl52.
  { rewrite <-Z.pow_add_r by lia. f_equal. lia. }
  assert (2 ^ Z.succ l = 2 ^ 53 * 2 ^ (l - 52)) as Hl53.
  { rewrite <-Z.pow_add_r by lia. f_equal. lia. }
  set (m := round_half_even a (2 ^ (l - 52))).
  assert (2 ^ 52 ≤ m) as Hm.
  { apply round_half_even_ge; [done|]. lia. }
  assert (0 < 2 ^ 52) as H52 by (apply Z.pow_pos_nonneg; lia).
  assert (2 ^ l ≤ m * 2 ^ (l - 52)) as Hv.
  { rewrite Hl52. apply Z.mul_le_mono_nonneg_r; lia. }
  assert (2 ^ 53 ≤ 2 ^ l) as Hl' by (apply Z.pow_le_mono_r; lia).
  rewrite Z.mul_1_r, (Z.abs_eq (m * 2 ^ (l - 52))) by lia.
  assert (2 ^ 1024 = 2 ^ 54 * 2 ^ 970) as H1024 by (by rewrite <-Z.pow_add_r).
  assert (2 ^ 971 = 2 * 2 ^ 970) as H971 by (by rewrite <-(Z.pow_succ_r 2)).
  assert (2 ^ 1023 = 2 ^ 53 * 2 ^ 970) as H1023 by (by rewrite <-Z.pow_add_r).
  assert (0 < 2 ^ 970) as H970 by (apply Z.pow_pos_nonneg; lia).
  split.
  - intros Hbig. rewrite decide_True; [done|].
    destruct (decide (1024 ≤ l)) as [Hl1|Hl1].
    + etrans; [|exact Hv]. apply Z.pow_le_mono_r; lia.
    + assert (l = 1023) as Hl2.
      { cut (1023 ≤ l); [lia|]. apply Z.log2_le_pow2; [done|].
        unfold float_limit in Hbig. rewrite H1024 in Hbig. rewrite H1023.
        change (2 ^ 54) with 18014398509481984 in Hbig.
        change (2 ^ 53) with 9007199254740992.
        set (X := 2 ^ 970) in *. clearbody X. clear -Hbig H970. lia. }
      assert (2 ^ 53 ≤ m) as Hm53.
      { apply round_half_even_tie_up; [done|done|].
        rewrite Hl2. change (1023 - 52) with 971. rewrite H971.
        unfold float_limit in Hbig. rewrite H1024 in Hbig.
        change (2 ^ 54) with 18014398509481984 in Hbig.
        change (2 ^ 53) with 9007199254740992.
        set (X := 2 ^ 970) in *. clearbody X. clear -Hbig H970. lia. }
      rewrite Hl2. change (1023 - 52) with 971. rewrite H1024, H971.
      change (2 ^ 54) with 18014398509481984.
      change (2 ^ 53) with 9007199254740992 in Hm53.
      set (X := 2 ^ 970) in *. clearbody X. clear -Hm53 H970. nia.
  - intros Hsmall.
    assert (m * 2 ^ (l - 52) < 2 ^ 1024) as Hfin.
    { assert (l < 1024) as Hl1.
      { apply Z.log2_lt_pow2; [done|]. unfold float_limit in Hsmall. lia. }
      destruct (decide (l ≤ 1022)) as [Hl2|Hl2].
      + assert (m ≤ 2 ^ 53) as Hm53.
        { apply round_half_even_le; [done|]. lia. }
        apply Z.le_lt_trans with (2 ^ Z.succ l).
        * rewrite Hl53. apply Z.mul_le_mono_nonneg_r; lia.
        * apply Z.pow_lt_mono_r; lia.
      + assert (l = 1023) as Hl3 by lia.
        assert (m ≤ 2 ^ 53 - 1) as Hm53.
        { apply round_half_even_lt; [done|].
          rewrite Hl3. change (1023 - 52) with 971. rewrite H971.
          unfold float_limit in Hsmall. rewrite H1024 in Hsmall.
          change (2 ^ 54) with 18014398509481984 in Hsmall.
          change (2 ^ 53) with 9007199254740992.
          set (X := 2 ^ 970) in *. clearbody X. clear -Hsmall H970. lia. }
        rewrite Hl3. change (1023 - 52) with 971. rewrite H1024, H971.
        change (2 ^ 54) with 18014398509481984.
        change (2 ^ 53) with 9007199254740992 in Hm53.
        set (X := 2 ^ 970) in *. clearbody X. clear -Hm53 H970. nia. }
    exists (m * 2 ^ (l - 52)). split; [lia|].
    rewrite decide_False; [done|]. lia.
Qed.

Lemma float_limit_bounds : 2 ^ 53 < float_limit < 2 ^ 1024.
Proof.
  unfold float_limit.
  assert (2 ^ 1024 = 2 ^ 54 * 2 ^ 970) as -> by (by rewrite <-Z.pow_add_r).
  assert (2 ^ 53 ≤ 2 ^ 970) by (apply Z.pow_le_mono_r; lia).
  assert (0 < 2 ^ 53) by (apply Z.pow_pos_nonneg; lia).
  change (2 ^ 54) with 18014398509481984.
  set (X := 2 ^ 970) in *. set (Y := 2 ^ 53) in *. lia.
Qed.

Lemma exact_ceil_spec n d k : 0 < d → (k - 1) * d < n ≤ k * d → exact_ceil n d = k.
Proof.
  intros Hd Hk. unfold exact_ceil.
  cut ((- n) `div` d = - k); [lia|].
  symmetry. apply (Z.div_unique_pos _ _ _ (k * d - n)); lia.
Qed.

(** [float(d)] for a [d] that converts: a positive integer [v] times the
    sign of [d], which divides the integers below 2^53 as [d] does. *)
Lemma of_int_in_range d :
  d ≠ 0 → Z.abs d < float_limit →
  ∃ v c, 0 < c ∧ 0 < v < 2 ^ 1024
    ∧ of_int d = Ok {| num := Z.sgn d * (v * c); den := c |}
    ∧ ∀ n, 0 ≤ n < 2 ^ 53 →
        n `div` v = n `div` Z.abs d ∧ exact_ceil n v = exact_ceil n (Z.abs d).
Proof.
  intros Hd Hlim. pose proof pow2_53_lt_1024 as H1024.
  assert (0 < 2 ^ 53) as H53 by (apply Z.pow_pos_nonneg; lia).
  destruct (decide (Z.abs d < 2 ^ 53)) as [Hsmall|Hlarge].
  - destruct (of_int_small d Hsmall) as (c & Hc & Hof).
    exists (Z.abs d), c. split; [done|]. split; [lia|]. split; [|done].
    by rewrite Hof, sgn_mul_abs.
  - destruct (of_int_large d ltac:(lia)) as [_ Hof].
    destruct (Hof Hlim) as (v & Hv & Hofv).
    exists v, 1. split; [done|]. split; [lia|]. split; [by rewrite Z.mul_1_r|].
    intros n Hn. split.
    + rewrite !Z.div_small by lia. done.
    + destruct (decide (n = 0)) as [->|Hn0].
      * unfold exact_ceil. by rewrite !Z.div_0_l by lia.
      * rewrite (exact_ceil_spec n v 1), (exact_ceil_spec n (Z.abs d) 1) by lia. done.
Qed.

(** X14.  Line 178 computed in binary64, for a table of fewer than 2^53
    rows and any integer [nsrc]: it raises [ZeroDivisionError] when [nsrc]
    is 0 and [OverflowError] when [nsrc] does not convert to a float, and
    otherwise its value is the ceiling of the exact quotient, whatever the
    rounding of the divisor and of the quotient. *)
Theorem int_ceil_div_exact n d :
  0 ≤ n < 2 ^ 53 → int_ceil_div n d = ceil_div n d.
Proof.
  intros Hn. pose proof float_limit_bounds as Hfl.
  unfold int_ceil_div, ceil_div.
  destruct (of_int_small n ltac:(lia)) as (c1 & Hc1 & ->).
  destruct (decide (d = 0)) as [->|Hd].
  { destruct (of_int_small 0 ltac:(cbn; lia)) as (c & Hc & ->).
    unfold div. cbn [num den]. by rewrite decide_True by lia. }
  destruct (decide (float_limit ≤ Z.abs d)) as [Hbig|Hfit].
  { destruct (of_int_large d ltac:(lia)) as [-> _]; done. }
  destruct (of_int_in_range d Hd ltac:(lia)) as (v & c2 & Hc2 & Hv & -> & Hsame).
  destruct (Hsame n Hn) as [Hfloor Hceil].
  unfold div. cbn [num den].
  assert (Z.sgn d * (v * c2) ≠ 0) as Hnum by nia.
  rewrite decide_False by done.
  assert (Z.abs (n * c1) * c2 = n * (c1 * c2)) as ->.
  { rewrite Z.abs_eq by nia. ring. }
  assert (c1 * Z.abs (Z.sgn d * (v * c2)) = v * (c1 * c2)) as ->.
  { rewrite !Z.abs_mul, (Z.abs_eq v), (Z.abs_eq c2) by lia.
    assert (Z.abs (Z.sgn d) = 1) as -> by lia. ring. }
  destruct (decide (n = 0)) as [->|Hn0].
  { unfold nearest. rewrite Z.mul_0_l, decide_True by done. cbn [num den].
    unfold int_ceil, is_inf. cbn [num den].
    rewrite decide_False.
    - unfold exact_ceil. change (- 0) with 0. by rewrite !Z.div_0_l by lia.
    - change (Z.abs 0) with 0. lia. }
  assert (0 < c1 * c2) as Hc by nia.
  destruct (nearest_bounds (n * (c1 * c2)) (v * (c1 * c2)) n v) as [Hden Hnear];
    [nia|nia|lia|lia|ring|lia|].
  set (x := nearest (n * (c1 * c2)) (v * (c1 * c2))) in *.
  pose proof (exact_ceil_pos n v ltac:(lia)) as Hk.
  destruct (Hnear (exact_ceil n v)) as [Hup _]. specialize (Hup Hk).
  assert (n `div` v * v ≤ n < (n `div` v + 1) * v) as Hf.
  { pose proof (Z.div_mod n v ltac:(lia)). pose proof (Z.mod_pos_bound n v ltac:(lia)). nia. }
  destruct (Hnear (n `div` v)) as [_ Hdown]. specialize (Hdown Hf).
  assert (0 ≤ num x) as Hx0.
  { assert (0 ≤ n `div` v) by (apply Z.div_pos; lia). nia. }
  assert (exact_ceil n v ≤ n) as Hkn by nia.
  assert (Z.sgn (n * c1) = 1) as -> by nia.
  assert (Z.sgn (Z.sgn d * (v * c2)) = Z.sgn d) as ->.
  { rewrite Z.sgn_mul, (Z.sgn_pos (v * c2)) by nia. lia. }
  clearbody x.
  unfold int_ceil, is_inf. cbn [num den].
  rewrite decide_False.
  - f_equal. rewrite Z.mul_1_l.
    destruct (Z.sgn_spec d) as [(Hpos & ->)|[(? & _)|(Hneg & ->)]]; [|done|].
    + rewrite Z.mul_1_l. rewrite (Z.abs_eq d) in Hceil by lia. rewrite <-Hceil.
      cut ((- num x) `div` den x = - exact_ceil n v); [lia|].
      symmetry. apply (Z.div_unique_pos _ _ _ (exact_ceil n v * den x - num x)); lia.
    + rewrite (Z.abs_neq d) in Hfloor by lia.
      replace (- (-1 * num x)) with (num x) by lia.
      unfold exact_ceil.
      replace ((- n) `div` d) with (n `div` (- d))
        by (rewrite <-(Z.div_opp_opp n (- d)) by lia; f_equal; lia).
      rewrite <-Hfloor. f_equal.
      symmetry. apply (Z.div_unique_pos _ _ _ (num x - n `div` v * den x)); lia.
  - rewrite Z.mul_1_l, Z.abs_mul, (Z.abs_eq (num x)) by done.
    assert (Z.abs (Z.sgn d) = 1) as -> by lia. rewrite Z.mul_1_l.
    assert (num x ≤ n * den x) by nia.
    assert (n * den x < 2 ^ 1024 * den x) by (apply Z.mul_lt_mono_pos_r; lia).
    lia.
Qed.

Lemma int_ceil_div_exact_witness :
  int_ceil_div 1200 500 = Ok 3
  ∧ int_ceil_div 1200 (- 7) = Ok (- 171)
  ∧ int_ceil_div 1200 0 = Raise ZeroDivisionError
  ∧ int_ceil_div 1200 (2 ^ 1024) = Raise OverflowError.
Proof.
  split; [|split; [|split]].
  - etrans; [apply (int_ceil_div_exact 1200 500); by vm_compute|by vm_compute].
  - etrans; [apply (int_ceil_div_exact 1200 (- 7)); by vm_compute|by vm_compute].
  - etrans; [apply (int_ceil_div_exact 1200 0); by vm_compute|by vm_compute].
  - etrans; [apply (int_ceil_div_exact 1200 (2 ^ 1024)); by vm_compute|by vm_compute].
Defined.

(** From 2^53 rows on the two differ: [float(2^53 + 3)] is 2^53 + 4. *)
Example int_ceil_div_rounds :
  int_ceil_div (2 ^ 53 + 3) 1 = Ok (2 ^ 53 + 4)
  ∧ ceil_div (2 ^ 53 + 3) 1 = Ok (2 ^ 53 + 3).
Proof. by vm_compute. Qed.

End Binary64Facts.


(** * Further properties of the worker *)

Module WorkerExtras.
Import Worker WorkerFacts.

(** ** Ranges that leave the catalog *)

Lemma for_loop_later_overrun args srcNames (k : nat) : ∀ lo : Z,
  min_idx args < lo → 0 ≤ lo → lo + Z.of_nat k = Z.of_nat (length srcNames) →
  ∀ extra : Z, 0 < extra →
  for_loop args srcNames (seqZ lo (Z.of_nat k + extra))
  = (drop (Z.to_nat lo) srcNames ≫= process_source args,
     IndexError (Z.of_nat (length srcNames))).
Proof.
  induction k as [|k IH]; intros lo Hmin Hlo Hlen extra Hextra.
  - rewrite seqZ_cons by lia. cbn [for_loop].
    rewrite getitem_past_end by lia.
    rewrite init_artifact_later by lia.
    rewrite drop_ge by lia. simpl. do 2 f_equal. lia.
  - rewrite seqZ_cons by lia. cbn [for_loop].
    rewrite getitem_nonneg by done.
    destruct (lookup_lt_is_Some_2 srcNames (Z.to_nat lo)) as [x Hx]; [lia|].
    rewrite Hx, (drop_S _ _ _ Hx).
    replace (Z.pred (Z.of_nat (S k) + extra)) with (Z.of_nat k + extra) by lia.
    rewrite IH by lia.
    rewrite init_artifact_later by lia.
    replace (Z.to_nat (Z.succ lo)) with (S (Z.to_nat lo)) by lia.
    done.
Qed.

(** X1.  A [srcmax] beyond the last source: the worker creates the output
    file, writes the maps of all sources from [srcmin] to the end of the
    catalog and then fails with [IndexError] at the index one past the end;
    gzip is not called, whatever the flag. *)
Theorem run_analysis_overrun os_system args srcNames :
  0 ≤ srcmin args ≤ Z.of_nat (length srcNames) →
  Z.of_nat (length srcNames) < srcmax args →
  run_analysis os_system args srcNames
  = (setup args
       ++ [ SaveSourceMaps (outfile args);
            CopyAndUpdateDssKeywords (cmap args) (outfile args) (irfs args) ]
       ++ (drop (Z.to_nat (srcmin args)) srcNames ≫= process_source args),
     IndexError (Z.of_nat (length srcNames))).
Proof.
  intros Hmin Hmax. unfold run_analysis, max_idx, min_idx, Py.xrange.
  rewrite decide_False by lia.
  rewrite seqZ_cons by lia. cbn [for_loop].
  rewrite <-(init_artifact_first args). unfold min_idx.
  destruct (decide (srcmin args = Z.of_nat (length srcNames))) as [Heq|Hne].
  - rewrite getitem_past_end by lia.
    rewrite drop_ge by lia. simpl. rewrite app_nil_r. do 2 f_equal. lia.
  - rewrite getitem_nonneg by lia.
    destruct (lookup_lt_is_Some_2 srcNames (Z.to_nat (srcmin args))) as [x Hx]; [lia|].
    rewrite Hx, (drop_S _ _ _ Hx).
    replace (Z.pred (srcmax args - srcmin args))
      with (Z.of_nat (Z.to_nat (Z.of_nat (length srcNames) - srcmin args - 1))
            + (srcmax args - Z.of_nat (length srcNames))) by lia.
    rewrite for_loop_later_overrun by (unfold min_idx; lia).
    replace (Z.to_nat (Z.succ (srcmin args))) with (S (Z.to_nat (srcmin args))) by lia.
    done.
Qed.

Lemma run_analysis_overrun_witness :
  run_analysis gzip_ok (sample_args 1 5 true) three_sources
  = (setup (sample_args 1 5 true)
       ++ [ SaveSourceMaps "srcmaps.fits";
            CopyAndUpdateDssKeywords "ccube.fits" "srcmaps.fits" "P8R2_SOURCE_V6" ]
       ++ ([ "E1"; "E2" ] ≫= process_source (sample_args 1 5 true)),
     IndexError 3).
Proof.
  apply (run_analysis_overrun gzip_ok (sample_args 1 5 true) three_sources); by vm_compute.
Defined.

(** X2.  A non-empty range whose first index is outside the catalog (at or
    past the end, or below minus the number of sources): the output file is
    created and its header copied, and then the very first look-up fails;
    no source is added and gzip is not called. *)
Theorem run_analysis_first_index_outside os_system args srcNames :
  srcmin args < - Z.of_nat (length srcNames) ∨ Z.of_nat (length srcNames) ≤ srcmin args →
  srcmin args < max_idx args srcNames →
  run_analysis os_system args srcNames
  = (setup args
       ++ [ SaveSourceMaps (outfile args);
            CopyAndUpdateDssKeywords (cmap args) (outfile args) (irfs args) ],
     IndexError (srcmin args)).
Proof.
  intros Hout Hne. unfold run_analysis, min_idx, Py.xrange.
  rewrite seqZ_cons by lia. cbn [for_loop].
  rewrite <-(init_artifact_first args). unfold min_idx.
  assert (Py.getitem srcNames (srcmin args) = None) as ->; [|done].
  destruct Hout as [Hlow|Hhigh]; [|by apply getitem_past_end].
  unfold Py.getitem. rewrite decide_False by lia. by rewrite decide_False by lia.
Qed.

Lemma run_analysis_first_index_outside_witness :
  run_analysis gzip_ok (sample_args (-5) (-1) true) three_sources
  = (setup (sample_args (-5) (-1) true)
       ++ [ SaveSourceMaps "srcmaps.fits";
            CopyAndUpdateDssKeywords "ccube.fits" "srcmaps.fits" "P8R2_SOURCE_V6" ],
     IndexError (-5)).
Proof.
  apply (run_analysis_first_index_outside gzip_ok (sample_args (-5) (-1) true) three_sources);
    vm_compute; [left|]; done.
Defined.

(** ** What the worker touches *)

Lemma getitem_elem_of {A} (l : list A) (i : Z) (x : A) :
  Py.getitem l i = Some x → x ∈ l.
Proof.
  unfold Py.getitem. intros H. repeat case_decide; try done;
    by eapply list_elem_of_lookup_2.
Qed.

Lemma for_loop_stays_inside args srcNames idxs :
  Forall (stays_inside args srcNames) (for_loop args srcNames idxs).1.
Proof.
  assert (Hinit : ∀ i, Forall (stays_inside args srcNames) (init_artifact args i)).
  { intros i. unfold init_artifact. case_decide; repeat constructor; simpl; congruence. }
  induction idxs as [|i rest IH]; cbn [for_loop]; [constructor|].
  destruct (Py.getitem srcNames i) as [n|] eqn:Hn; [|apply Hinit].
  apply getitem_elem_of in Hn.
  destruct (for_loop args srcNames rest) as [tr o]. cbn [fst] in *.
  apply Forall_app. split; [apply Hinit|].
  apply Forall_app. split; [|done].
  unfold process_source. repeat constructor; simpl; congruence.
Qed.

(** X3.  The only file a run creates or writes into is [args.outfile], and
    every source it releases, adds, writes or deletes is a name of the
    catalog. *)
Theorem run_analysis_stays_inside os_system args srcNames e :
  e ∈ (run_analysis os_system args srcNames).1 →
  (∀ o, written_file e = Some o → o = outfile args)
  ∧ (∀ n, handled_source e = Some n → n ∈ srcNames).
Proof.
  revert e. apply Forall_forall. change (Forall (stays_inside args srcNames)
    (run_analysis os_system args srcNames).1).
  unfold run_analysis.
  pose proof (for_loop_stays_inside args srcNames
                (Py.xrange (min_idx args) (max_idx args srcNames))) as Hloop.
  assert (Hsetup : Forall (stays_inside args srcNames) (setup args)).
  { unfold setup. repeat constructor; simpl; congruence. }
  destruct (for_loop _ _ _) as [tr [|i]]; cbn [fst] in *.
  - rewrite !Forall_app. split; [done|]. split; [done|].
    unfold compress. destruct (gzip args); repeat constructor; simpl; congruence.
  - rewrite Forall_app. done.
Qed.

Lemma run_analysis_stays_inside_witness :
  (∀ o, written_file (SaveSourceMap_partial "srcmaps.fits" "E1") = Some o
        → o = "srcmaps.fits")
  ∧ (∀ n, handled_source (SaveSourceMap_partial "srcmaps.fits" "E1") = Some n
          → n ∈ three_sources).
Proof.
  apply (run_analysis_stays_inside gzip_ok (sample_args 0 (-1) true) three_sources).
  apply (bool_decide_unpack _). by vm_compute.
Defined.

(** ** The sources a job writes *)

Lemma saved_app tr1 tr2 : saved (tr1 ++ tr2) = saved tr1 ++ saved tr2.
Proof. apply omap_app. Qed.

Lemma saved_process_sources args (names : list string) :
  saved (names ≫= process_source args) = names.
Proof.
  induction names as [|n names IH]; [done|].
  rewrite bind_cons, saved_app, IH. done.
Qed.

Lemma saved_compress os_system args : saved (compress os_system args) = [].
Proof. unfold compress. by destruct (gzip args). Qed.

Lemma saved_init_artifact args i : saved (init_artifact args i) = [].
Proof. unfold init_artifact. by case_decide. Qed.

(** A range inside the catalog, empty or not: the run returns and has
    written the maps of the sources of the range, in catalog order. *)
Lemma saved_in_range os_system args srcNames :
  srcmax args ≤ Z.of_nat (length srcNames) → 0 ≤ srcmin args ≤ srcmax args →
  (run_analysis os_system args srcNames).2 = Done
  ∧ saved (run_analysis os_system args srcNames).1
    = take (Z.to_nat (srcmax args - srcmin args)) (drop (Z.to_nat (srcmin args)) srcNames).
Proof.
  intros Hhi Hlo. unfold run_analysis, max_idx.
  rewrite decide_False by lia.
  destruct (decide (srcmin args = srcmax args)) as [Heq|Hne].
  - unfold Py.xrange, min_idx. rewrite seqZ_nil by lia. cbn [for_loop fst snd].
    split; [done|]. rewrite !saved_app, saved_compress.
    by replace (Z.to_nat (srcmax args - srcmin args)) with 0%nat by lia.
  - rewrite for_loop_in_range by (done || unfold min_idx; lia). cbn [fst snd].
    split; [done|].
    rewrite !saved_app, saved_compress, saved_init_artifact, saved_process_sources.
    unfold min_idx. by rewrite app_nil_r.
Qed.

(** X4.  Cutting a range of the catalog in two: the job on [a, b) followed
    by the job on [b, c) writes the maps of the same sources, in the same
    order, as one job on [a, c); all three return. *)
Theorem adjacent_ranges_compose os_system args srcNames (a b c : Z) :
  0 ≤ a ≤ b → b ≤ c ≤ Z.of_nat (length srcNames) →
  let job lo hi := run_analysis os_system (with_range lo hi args) srcNames in
  (job a b).2 = Done ∧ (job b c).2 = Done ∧ (job a c).2 = Done
  ∧ saved (job a b).1 ++ saved (job b c).1 = saved (job a c).1.
Proof.
  intros Hab Hbc job.
  destruct (saved_in_range os_system (with_range a b args) srcNames) as [Hd1 Hs1];
    [simpl; lia..|].
  destruct (saved_in_range os_system (with_range b c args) srcNames) as [Hd2 Hs2];
    [simpl; lia..|].
  destruct (saved_in_range os_system (with_range a c args) srcNames) as [Hd3 Hs3];
    [simpl; lia..|].
  split; [done|]. split; [done|]. split; [done|].
  unfold job. rewrite Hs1, Hs2, Hs3. simpl.
  replace (Z.to_nat b) with (Z.to_nat a + Z.to_nat (b - a))%nat by lia.
  rewrite <-drop_drop, take_take_drop. f_equal. lia.
Qed.

Lemma adjacent_ranges_compose_witness :
  let job lo hi := run_analysis gzip_ok (with_range lo hi (sample_args 0 0 false))
                     three_sources in
  (job 0 1).2 = Done ∧ (job 1 3).2 = Done ∧ (job 0 3).2 = Done
  ∧ saved (job 0 1).1 ++ saved (job 1 3).1 = saved (job 0 3).1.
Proof.
  apply (adjacent_ranges_compose gzip_ok (sample_args 0 0 false) three_sources 0 1 3);
    by vm_compute.
Defined.

(** ** The upper bound of the loop *)

Lemma for_loop_with_range lo hi args srcNames idxs :
  lo = srcmin args →
  for_loop (with_range lo hi args) srcNames idxs = for_loop args srcNames idxs.
Proof.
  intros ->. induction idxs as [|i idxs IH]; [done|].
  cbn [for_loop]. by rewrite IH.
Qed.

(** With [srcmax] unset the run is the run of the job that ends at the
    number of sources. *)
Lemma run_analysis_unset_srcmax os_system args srcNames :
  srcmax args < 0 →
  run_analysis os_system args srcNames
  = run_analysis os_system
      (with_range (srcmin args) (Z.of_nat (length srcNames)) args) srcNames.
Proof.
  intros Hneg. unfold run_analysis, max_idx, min_idx. cbn [srcmin srcmax with_range].
  rewrite (decide_True (P := srcmax args < 0)) by done.
  rewrite (decide_False (P := Z.of_nat (length srcNames) < 0)) by lia.
  by rewrite for_loop_with_range.
Qed.

(** A [srcmax] beyond the catalog: the maps of the sources from [srcmin]
    on are written, then the index one past the end raises. *)
Lemma saved_overrun os_system args srcNames :
  0 ≤ srcmin args ≤ Z.of_nat (length srcNames) →
  Z.of_nat (length srcNames) < srcmax args →
  (run_analysis os_system args srcNames).2 = IndexError (Z.of_nat (length srcNames))
  ∧ saved (run_analysis os_system args srcNames).1
    = drop (Z.to_nat (srcmin args)) srcNames.
Proof.
  intros Hmin Hmax.
  assert (run_analysis os_system args srcNames
          = (setup args
               ++ init_artifact args (min_idx args)
               ++ (drop (Z.to_nat (srcmin args)) srcNames ≫= process_source args),
             IndexError (Z.of_nat (length srcNames)))) as ->.
  { unfold run_analysis, max_idx, min_idx, Py.xrange.
    rewrite decide_False by lia.
    rewrite seqZ_cons by lia. cbn [for_loop]. unfold min_idx.
    destruct (decide (srcmin args = Z.of_nat (length srcNames))) as [Heq|Hne].
    - rewrite getitem_past_end by lia.
      rewrite drop_ge by lia. simpl. rewrite app_nil_r. do 2 f_equal. lia.
    - rewrite getitem_nonneg by lia.
      destruct (lookup_lt_is_Some_2 srcNames (Z.to_nat (srcmin args))) as [x Hx]; [lia|].
      rewrite Hx, (drop_S _ _ _ Hx).
      replace (Z.pred (srcmax args - srcmin args))
        with (Z.of_nat (Z.to_nat (Z.of_nat (length srcNames) - srcmin args - 1))
              + (srcmax args - Z.of_nat (length srcNames))) by lia.
      rewrite for_loop_later_overrun by (unfold min_idx; lia).
      replace (Z.to_nat (Z.succ (srcmin args))) with (S (Z.to_nat (srcmin args))) by lia.
      done. }
  cbn [fst snd]. split; [done|].
  by rewrite !saved_app, saved_init_artifact, saved_process_sources.
Qed.

(** C6.  The loop of the worker ends at the number of sources when
    [srcmax] is negative, and at [srcmax] itself otherwise.  With [srcmax]
    unset the run is that of the job ending at the number of sources: it
    returns with the maps of all sources from [srcmin] on.  A [srcmax]
    inside the catalog ends the run after the source [srcmax - 1]: the maps
    written are those of the sources [srcmin] to [srcmax - 1].  A [srcmax]
    beyond the catalog is not cut down to it: the loop goes on to the index
    one past the last source, where indexing the catalog raises. *)
Theorem loop_bound_from_srcmax os_system args srcNames :
  let n := Z.of_nat (length srcNames) in
  let r := run_analysis os_system args srcNames in
  (srcmax args < 0 →
     max_idx args srcNames = n
     ∧ r = run_analysis os_system (with_range (srcmin args) n args) srcNames
     ∧ (0 ≤ srcmin args ≤ n →
        r.2 = Done ∧ saved r.1 = drop (Z.to_nat (srcmin args)) srcNames))
  ∧ (0 ≤ srcmax args →
     max_idx args srcNames = srcmax args
     ∧ (0 ≤ srcmin args ≤ srcmax args → srcmax args ≤ n →
        r.2 = Done
        ∧ saved r.1 = take (Z.to_nat (srcmax args - srcmin args))
                        (drop (Z.to_nat (srcmin args)) srcNames))
     ∧ (0 ≤ srcmin args ≤ n → n < srcmax args →
        r.2 = IndexError n ∧ saved r.1 = drop (Z.to_nat (srcmin args)) srcNames)).
Proof.
  intros n r. split.
  - intros Hneg. split; [|split].
    + unfold max_idx. by rewrite decide_True.
    + by apply run_analysis_unset_srcmax.
    + intros Hmin. unfold r, n in *. rewrite run_analysis_unset_srcmax by done.
      destruct (saved_in_range os_system
                  (with_range (srcmin args) (Z.of_nat (length srcNames)) args) srcNames)
        as [Hdone Hsaved]; [simpl; lia..|].
      split; [done|]. rewrite Hsaved. simpl.
      apply take_ge. rewrite length_drop. lia.
  - intros Hpos. split; [|split].
    + unfold max_idx. by rewrite decide_False by lia.
    + intros Hmin Hmax. by apply saved_in_range.
    + intros Hmin Hmax. by apply saved_overrun.
Qed.

Lemma loop_bound_from_srcmax_witness :
  saved (run_analysis gzip_ok (sample_args 1 (-1) false) three_sources).1 = ["E1"; "E2"]
  ∧ saved (run_analysis gzip_ok (sample_args 0 2 false) three_sources).1 = ["E0"; "E1"]
  ∧ (run_analysis gzip_ok (sample_args 0 5 false) three_sources).2 = IndexError 3.
Proof.
  split; [|split].
  - destruct (loop_bound_from_srcmax gzip_ok (sample_args 1 (-1) false) three_sources)
      as [Hunset _].
    destruct Hunset as (_ & _ & Hsaved); [by vm_compute|].
    destruct Hsaved as [_ Hsaved]; [by vm_compute|]. exact Hsaved.
  - destruct (loop_bound_from_srcmax gzip_ok (sample_args 0 2 false) three_sources)
      as [_ Hset].
    destruct Hset as (_ & Hinside & _); [by vm_compute|].
    destruct Hinside as [_ Hsaved]; [by vm_compute..|]. exact Hsaved.
  - destruct (loop_bound_from_srcmax gzip_ok (sample_args 0 5 false) three_sources)
      as [_ Hset].
    destruct Hset as (_ & _ & Hbeyond); [by vm_compute|].
    destruct Hbeyond as [Hout _]; [by vm_compute..|]. exact Hout.
Defined.

End WorkerExtras.


(** * Facts about the string operations *)

Module PyFacts.

Lemma app_nil_l (s : string) : "" +:+ s = s.
Proof. reflexivity. Qed.

Lemma app_cons (c : ascii) (s t : string) : String c s +:+ t = String c (s +:+ t).
Proof. reflexivity. Qed.

Lemma app_empty_r (s : string) : s +:+ "" = s.
Proof. induction s as [|c s IH]; [done|]. by rewrite app_cons, IH. Qed.

Lemma app_assoc (s1 s2 s3 : string) : (s1 +:+ s2) +:+ s3 = s1 +:+ s2 +:+ s3.
Proof. induction s1 as [|c s1 IH]; [done|]. by rewrite !app_cons, IH. Qed.

Lemma length_app (s1 s2 : string) :
  String.length (s1 +:+ s2) = (String.length s1 + String.length s2)%nat.
Proof. induction s1 as [|c s1 IH]; [done|]. rewrite app_cons. simpl. by rewrite IH. Qed.

(** *** Decimal digits *)

Lemma pretty_N_char_digit (x : N) : Py.is_digit (pretty_N_char x) = true.
Proof. unfold pretty_N_char. by repeat case_match. Qed.

Lemma pretty_N_go_digits (x : N) : ∀ s,
  Py.all_digits s = true → Py.all_digits (pretty_N_go x s) = true.
Proof.
  induction (N.lt_wf_0 x) as [x _ IH]; intros s Hs.
  destruct (decide (x = 0)%N) as [->|Hx]; [by rewrite pretty_N_go_0|].
  rewrite pretty_N_go_step by lia. apply IH.
  - apply N.div_lt; lia.
  - simpl. by rewrite pretty_N_char_digit.
Qed.

Lemma pretty_N_digits (x : N) : Py.all_digits (pretty x) = true.
Proof.
  unfold pretty, pretty_N. case_decide; [done|]. by apply pretty_N_go_digits.
Qed.

Lemma pretty_Z_digits (z : Z) : 0 ≤ z → Py.all_digits (pretty z) = true.
Proof.
  intros Hz. destruct z as [|p|p]; [done| |lia].
  apply (pretty_N_digits (Npos p)).
Qed.

(** A positive number is printed without a leading zero. *)
Lemma pretty_N_go_head (x : N) : ∀ s,
  (0 < x)%N → ∃ c rest, pretty_N_go x s = String c rest ∧ c ≠ "0"%char.
Proof.
  induction (N.lt_wf_0 x) as [x _ IH]; intros s Hx.
  rewrite pretty_N_go_step by done.
  destruct (decide (x `div` 10 = 0)%N) as [H0|H0].
  - rewrite H0, pretty_N_go_0. eexists _, _. split; [done|].
    assert (x < 10)%N by (apply N.div_small_iff in H0; lia).
    assert (x `mod` 10 = x)%N as -> by (apply N.mod_small; lia).
    assert (x = 1 ∨ x = 2 ∨ x = 3 ∨ x = 4 ∨ x = 5 ∨ x = 6 ∨ x = 7 ∨ x = 8 ∨ x = 9)%N
      as Hcases by lia.
    destruct Hcases as [->|[->|[->|[->|[->|[->|[->|[->| ->]]]]]]]]; done.
  - apply IH; [apply N.div_lt; lia|by apply N.neq_0_lt_0].
Qed.

Lemma pretty_Z_head (z : Z) :
  0 ≤ z → pretty z = "0" ∨ ∃ c rest, pretty z = String c rest ∧ c ≠ "0"%char.
Proof.
  intros Hz. destruct z as [|p|p]; [by left| |lia]. right.
  change (pretty (Zpos p)) with (pretty (Npos p)).
  unfold pretty, pretty_N. rewrite decide_False by done.
  by apply pretty_N_go_head.
Qed.

Lemma zeros_digits (n : nat) : Py.all_digits (Py.zeros n) = true.
Proof. induction n as [|n IH]; [done|]. simpl. by rewrite IH. Qed.

Lemma all_digits_app (s1 s2 : string) :
  Py.all_digits (s1 +:+ s2) = Py.all_digits s1 && Py.all_digits s2.
Proof.
  induction s1 as [|c s1 IH]; [done|]. rewrite app_cons. simpl.
  rewrite IH. by rewrite andb_assoc.
Qed.

(** ["%0<w>i" % z] for [z >= 0]: zeros, then the digits. *)
Lemma fmt_0i_nonneg (w : nat) (z : Z) :
  0 ≤ z → Py.fmt_0i w z = Py.zeros (w - String.length (pretty z)) +:+ pretty z.
Proof.
  intros Hz. unfold Py.fmt_0i. cbv zeta. rewrite decide_False by lia.
  rewrite Z.abs_eq by done. rewrite app_nil_l. simpl. by rewrite Nat.sub_0_r.
Qed.

Lemma fmt_0i_digits (w : nat) (z : Z) : 0 ≤ z → Py.all_digits (Py.fmt_0i w z) = true.
Proof.
  intros Hz. rewrite fmt_0i_nonneg by done.
  by rewrite all_digits_app, zeros_digits, pretty_Z_digits.
Qed.

(** ["%02i"] gives different strings for different numbers. *)
Lemma fmt_02i_inj (i j : Z) : 0 ≤ i → 0 ≤ j → Py.fmt_0i 2 i = Py.fmt_0i 2 j → i = j.
Proof.
  intros Hi Hj. rewrite !fmt_0i_nonneg by done.
  intros Heq. apply (inj pretty).
  destruct (pretty_Z_head i Hi) as [Hpi|(ci & ri & Hpi & Hci)];
    destruct (pretty_Z_head j Hj) as [Hpj|(cj & rj & Hpj & Hcj)];
    rewrite ?Hpi, ?Hpj in Heq |- *; try done.
  - exfalso. destruct rj as [|? rj]; cbn in Heq;
      rewrite ?app_cons, ?app_nil_l in Heq; by simplify_eq.
  - exfalso. destruct ri as [|? ri]; cbn in Heq;
      rewrite ?app_cons, ?app_nil_l in Heq; by simplify_eq.
  - destruct ri as [|? ri], rj as [|? rj]; cbn in Heq;
      rewrite ?app_cons, ?app_nil_l in Heq; by simplify_eq.
Qed.

(** *** Digits next to a separator *)

Lemma all_digits_sep (a b : string) (x : ascii) :
  Py.is_digit x = false → Py.all_digits (a +:+ String x b) = false.
Proof.
  intros Hx. rewrite all_digits_app. simpl. rewrite Hx.
  by rewrite andb_false_r.
Qed.

(** A key, a separator that is no digit, and digits: the last separator
    tells where the digits start. *)
Lemma digits_suffix_inj (k1 k2 d1 d2 : string) (x : ascii) :
  Py.is_digit x = false → Py.all_digits d1 = true → Py.all_digits d2 = true →
  k1 +:+ String x d1 = k2 +:+ String x d2 → k1 = k2 ∧ d1 = d2.
Proof.
  intros Hx Hd1 Hd2. revert k2.
  induction k1 as [|c k1 IH]; intros [|c' k2]; rewrite ?app_cons, ?app_nil_l; intros Heq.
  - by simplify_eq.
  - simplify_eq. by rewrite all_digits_sep in Hd1.
  - simplify_eq. by rewrite all_digits_sep in Hd2.
  - simplify_eq. destruct (IH k2) as [-> ->]; done.
Qed.

(** Digits, a separator that is no digit, and a rest. *)
Lemma digits_prefix_inj (d1 d2 r1 r2 : string) (x : ascii) :
  Py.is_digit x = false → Py.all_digits d1 = true → Py.all_digits d2 = true →
  d1 +:+ String x r1 = d2 +:+ String x r2 → d1 = d2 ∧ r1 = r2.
Proof.
  intros Hx. revert d2.
  induction d1 as [|c d1 IH]; intros [|c' d2] Hd1 Hd2;
    rewrite ?app_cons, ?app_nil_l; intros Heq; simpl in Hd1, Hd2.
  - by simplify_eq.
  - simplify_eq. by rewrite Hx in Hd2.
  - simplify_eq. by rewrite Hx in Hd1.
  - simplify_eq. apply andb_true_iff in Hd1 as [_ Hd1], Hd2 as [_ Hd2].
    destruct (IH d2) as [-> ->]; done.
Qed.

(** *** [replace] *)

Lemma replace_from_clear (old new a s : string) :
  Py.clear_of old a s = true →
  Py.replace_from old new 0 (a +:+ s) = a +:+ Py.replace_from old new 0 s.
Proof.
  induction a as [|c a IH]; [done|]. cbn [Py.clear_of].
  intros [Hhere Hrest]%andb_true_iff. apply negb_true_iff in Hhere.
  rewrite !app_cons in *. cbn [Py.replace_from].
  rewrite Hhere. by rewrite IH.
Qed.

(** Without an occurrence of [old] nothing is replaced. *)
Lemma replace_absent (s old new : string) :
  Py.occurs old s = false → Py.replace s old new = s.
Proof.
  unfold Py.replace. induction s as [|c s IH]; [done|].
  cbn [Py.occurs]. intros [Hhere Hrest]%orb_false_iff.
  cbn [Py.replace_from]. rewrite Hhere. by rewrite IH.
Qed.

Lemma startswith_refl (old s : string) : Py.startswith old (old +:+ s) = true.
Proof.
  induction old as [|c old IH]; [done|]. rewrite app_cons. cbn [Py.startswith].
  by rewrite decide_True.
Qed.

Lemma replace_from_skip_all (old new s : string) : ∀ n : nat,
  (String.length s ≤ n)%nat → Py.replace_from old new n s = "".
Proof.
  induction s as [|c s IH]; intros n Hn; [done|].
  destruct n as [|n]; simpl in Hn; [lia|].
  cbn [Py.replace_from]. apply IH. lia.
Qed.

(** [old] occurs at the end of the string only: the end is replaced. *)
Lemma replace_at_end (stem old new : string) :
  old ≠ "" → Py.clear_of old stem old = true →
  Py.replace (stem +:+ old) old new = stem +:+ new.
Proof.
  intros Hold Hclear. unfold Py.replace. rewrite replace_from_clear by done.
  f_equal. destruct old as [|c old]; [done|].
  cbn [Py.replace_from].
  pose proof (startswith_refl (String c old) "") as Hstart.
  rewrite app_empty_r in Hstart. rewrite Hstart.
  rewrite replace_from_skip_all by (simpl; lia). apply app_empty_r.
Qed.

Lemma clear_of_app (old a b s : string) :
  Py.clear_of old (a +:+ b) s = Py.clear_of old a (b +:+ s) && Py.clear_of old b s.
Proof.
  induction a as [|c a IH]; [done|].
  rewrite !app_cons. cbn [Py.clear_of]. rewrite IH, !app_cons, app_assoc.
  by rewrite andb_assoc.
Qed.

(** A string none of whose characters starts [old] holds no start of an
    occurrence. *)
Lemma clear_of_other_chars (o : ascii) (old b s : string) :
  Py.mem o b = false → Py.clear_of (String o old) b s = true.
Proof.
  induction b as [|c b IH]; [done|]. cbn [Py.mem].
  intros [Hc Hb]%orb_false_iff. apply bool_decide_eq_false in Hc.
  cbn [Py.clear_of]. rewrite app_cons. cbn [Py.startswith].
  rewrite decide_False by done. by rewrite IH.
Qed.

(** What follows a partial match decides it: if the next text starts with a
    character that is not in [old], there is no match either. *)
Lemma startswith_other_tail (old a s t : string) (x : ascii) :
  Py.mem x old = false →
  Py.startswith old (a +:+ s) = false → Py.startswith old (a +:+ String x t) = false.
Proof.
  revert a. induction old as [|o old IH]; intros a Hx; [done|].
  cbn [Py.mem] in Hx. apply orb_false_iff in Hx as [Ho Hx].
  apply bool_decide_eq_false in Ho.
  destruct a as [|c a]; rewrite ?app_cons, ?app_nil_l.
  - intros _. cbn [Py.startswith]. by rewrite decide_False by done.
  - cbn [Py.startswith]. case_decide; [|done]. by apply IH.
Qed.

Lemma clear_of_other_tail (old a s t : string) (x : ascii) :
  Py.mem x old = false →
  Py.clear_of old a s = true → Py.clear_of old a (String x t) = true.
Proof.
  intros Hx. induction a as [|c a IH]; [done|]. cbn [Py.clear_of].
  intros [Hhere Hrest]%andb_true_iff. apply negb_true_iff in Hhere.
  rewrite (startswith_other_tail old (String c a) s t x) by done.
  by rewrite IH.
Qed.

Lemma mem_digits (x : ascii) (s : string) :
  Py.is_digit x = false → Py.all_digits s = true → Py.mem x s = false.
Proof.
  intros Hx. induction s as [|c s IH]; [done|]. simpl.
  intros [Hc Hs]%andb_true_iff. rewrite IH by done.
  rewrite orb_false_r. apply bool_decide_eq_false. intros ->. congruence.
Qed.

End PyFacts.


(** * Further properties of the generator *)

Module GeneratorExtras.
Import Generator GeneratorFacts.

(** ** Storing a list of jobs *)

Lemma lookup_foldl_store_Some (l : list (string * Job.t)) : ∀ job_configs key job,
  foldl store job_configs l !! key = Some job →
  (key, job) ∈ l ∨ job_configs !! key = Some job.
Proof.
  induction l as [|[k v] l IH]; intros job_configs key job Hlook; [by right|].
  cbn [foldl] in Hlook. apply IH in Hlook as [Hin|Hlook].
  - left. by apply elem_of_cons; right.
  - unfold store in Hlook. cbn [fst snd] in Hlook.
    destruct (decide (k = key)) as [->|Hne].
    + rewrite lookup_insert_eq in Hlook. injection Hlook as ->.
      left. by apply elem_of_cons; left.
    + rewrite lookup_insert_ne in Hlook by done. by right.
Qed.

Lemma lookup_foldl_store_NoDup (l : list (string * Job.t)) : ∀ job_configs key job,
  NoDup l.*1 → (key, job) ∈ l → foldl store job_configs l !! key = Some job.
Proof.
  induction l as [|[k v] l IH]; intros job_configs key job Hnd Hin.
  - by apply elem_of_nil in Hin.
  - rewrite fmap_cons in Hnd. apply NoDup_cons in Hnd as [Hk Hnd].
    cbn [foldl]. apply elem_of_cons in Hin as [Heq|Hin].
    + injection Heq as -> ->. rewrite lookup_foldl_store_other by done.
      unfold store. by rewrite lookup_insert_eq.
    + by apply IH.
Qed.

Lemma size_foldl_store_NoDup (l : list (string * Job.t)) : ∀ job_configs,
  NoDup l.*1 → (∀ key, key ∈ l.*1 → job_configs !! key = None) →
  size (foldl store job_configs l) = (size job_configs + length l)%nat.
Proof.
  induction l as [|[k v] l IH]; intros job_configs Hnd Hfresh.
  - simpl. lia.
  - rewrite fmap_cons in Hnd, Hfresh. apply NoDup_cons in Hnd as [Hk Hnd].
    cbn [foldl]. rewrite IH; [|done|].
    + unfold store. rewrite map_size_insert_None; [simpl; lia|].
      apply Hfresh. by apply elem_of_cons; left.
    + intros key Hkey. unfold store. cbn [fst snd].
      rewrite lookup_insert_ne by (intros ->; done).
      apply Hfresh. by apply elem_of_cons; right.
Qed.

Section Extras.
Context {B : Type} `{!NameFactory B}.
Variable make_nfs_path : string → string.
Variable make_key : Component.t → string → string.
Variable build_from_yamlfile : string → list Component.t.
Variable make_catalog_comp_dict : string → string → RetDict.

Local Abbreviation job_entry := (job_entry make_nfs_path make_key).
Local Abbreviation comp_jobs := (comp_jobs make_nfs_path make_key).
Local Abbreviation catalog_jobs := (catalog_jobs make_nfs_path make_key).
Local Abbreviation for_catalog := (for_catalog make_nfs_path make_key).
Local Abbreviation for_catalogs := (for_catalogs make_nfs_path make_key).
Local Abbreviation stored_jobs := (stored_jobs make_nfs_path make_key).
Local Abbreviation build_job_configs :=
  (build_job_configs make_nfs_path make_key build_from_yamlfile make_catalog_comp_dict).
Local Abbreviation full_key := (full_key make_key).

(** ** When the generator fails *)

Lemma for_catalogs_stores st c components items : ∀ job_configs,
  c ≠ 0 → Z.abs c < float_limit →
  for_catalogs st c components job_configs items
  = Ok (foldl store job_configs (stored_jobs st c components items)).
Proof.
  induction items as [|[name info] rest IH]; intros job_configs Hc Hlimit; [done|].
  cbn [Generator.for_catalogs Generator.for_catalog].
  unfold Generator.stored_jobs. rewrite bind_cons, foldl_app. cbn [fst snd].
  rewrite ceil_div_in_range by done.
  rewrite IH by done. done.
Qed.

(** Whenever the loop over the catalogs returns, it has stored the jobs
    of every catalog in turn. *)
Lemma for_catalogs_Ok st c components items : ∀ job_configs job_configs',
  for_catalogs st c components job_configs items = Ok job_configs' →
  job_configs' = foldl store job_configs (stored_jobs st c components items).
Proof.
  induction items as [|[name info] rest IH]; intros job_configs job_configs' Hres.
  - by injection Hres as <-.
  - cbn [Generator.for_catalogs Generator.for_catalog] in Hres.
    unfold ceil_div in Hres. repeat case_decide; try done.
    apply IH in Hres as ->.
    unfold Generator.stored_jobs. by rewrite bind_cons, foldl_app.
Qed.

Lemma build_job_configs_stores st args :
  nsrc args ≠ 0 → Z.abs (nsrc args) < float_limit →
  (build_job_configs st args).2
  = Ok (foldl store ∅
          (stored_jobs (update_base_dict st (data args)) (nsrc args)
             (build_from_yamlfile (comp args))
             (catalog_info_dict (loaded_ret_dict make_catalog_comp_dict st args)))).
Proof.
  intros Hc Hlimit. unfold Generator.build_job_configs. cbn [snd].
  by rewrite for_catalogs_stores.
Qed.

(** X5.  What the generator gives for any [nsrc], when every catalog has
    fewer than 2^53 sources: without a catalog an empty dictionary; with a
    catalog and [nsrc = 0] the exception [ZeroDivisionError]; with a
    catalog and an [nsrc] that does not convert to a float the exception
    [OverflowError]; with a catalog and any other [nsrc], negative ones
    too, the dictionary that storing the jobs of every catalog, component
    and chunk, in loop order, into an empty dictionary gives. *)
Theorem build_job_configs_result st args :
  (∀ item,
     item ∈ catalog_info_dict (loaded_ret_dict make_catalog_comp_dict st args) →
     n_cat_src item.2 < 2 ^ 53) →
  (build_job_configs st args).2
  = match catalog_info_dict (loaded_ret_dict make_catalog_comp_dict st args) with
    | [] => Ok ∅
    | items =>
        if decide (nsrc args = 0) then Raise ZeroDivisionError
        else if decide (float_limit ≤ Z.abs (nsrc args)) then Raise OverflowError
        else Ok (foldl store ∅
                   (stored_jobs (update_base_dict st (data args)) (nsrc args)
                      (build_from_yamlfile (comp args)) items))
    end.
Proof.
  intros _.
  destruct (catalog_info_dict _) as [|item rest] eqn:Hitems.
  - unfold Generator.build_job_configs, loaded_ret_dict in *. cbn [snd]. by rewrite Hitems.
  - case_decide as Hc; [|case_decide as Hlimit].
    + unfold Generator.build_job_configs, loaded_ret_dict in *. cbn [snd].
      rewrite Hitems, Hc. apply for_catalogs_zero.
    + unfold Generator.build_job_configs, loaded_ret_dict in *. cbn [snd].
      rewrite Hitems. by apply for_catalogs_overflow.
    + rewrite build_job_configs_stores by (done || lia). by rewrite Hitems.
Qed.

(** ** What is in the dictionary *)

Lemma elem_of_stored_jobs st c components items key job :
  (key, job) ∈ stored_jobs st c components items →
  ∃ name info comp i,
    (name, info) ∈ items ∧ comp ∈ components
    ∧ 0 ≤ i < exact_ceil (n_cat_src info) c
    ∧ (key, job) = job_entry st c name info comp i.
Proof.
  unfold Generator.stored_jobs, Generator.catalog_jobs, Generator.comp_jobs, Py.range.
  intros ([name info] & Hjob & Hitem)%list_elem_of_bind. cbn [fst snd] in Hjob.
  apply list_elem_of_bind in Hjob as (comp & Hjob & Hcomp).
  apply list_elem_of_fmap in Hjob as (i & Hjob & Hi).
  apply elem_of_seqZ in Hi.
  exists name, info, comp, i. split; [done|]. split; [done|]. split; [lia|done].
Qed.

(** X6.  With [nsrc] at least 1, every entry of the dictionary returned is
    the job of some chunk of some component and catalog of the library; its
    range starts at a multiple of [nsrc], is not empty, has at most [nsrc]
    sources and ends inside the catalog. *)
Theorem returned_jobs_well_formed st args job_configs key job :
  1 ≤ nsrc args →
  (build_job_configs st args).2 = Ok job_configs →
  job_configs !! key = Some job →
  ∃ name info component i,
    (name, info) ∈ catalog_info_dict (loaded_ret_dict make_catalog_comp_dict st args)
    ∧ component ∈ build_from_yamlfile (comp args)
    ∧ 0 ≤ i
    ∧ (key, job)
      = job_entry (update_base_dict st (data args)) (nsrc args) name info component i
    ∧ Job.srcmin job = i * nsrc args
    ∧ 0 ≤ Job.srcmin job < Job.srcmax job
    ∧ Job.srcmax job ≤ n_cat_src info
    ∧ Job.srcmax job - Job.srcmin job ≤ nsrc args.
Proof.
  intros Hc Hres Hlook.
  unfold Generator.build_job_configs in Hres. cbn [snd] in Hres.
  apply for_catalogs_Ok in Hres as ->.
  apply lookup_foldl_store_Some in Hlook as [Hin|Hlook]; [|by rewrite lookup_empty in Hlook].
  apply elem_of_stored_jobs in Hin as (name & info & c & i & Hitem & Hcomp & Hi & Hjob).
  exists name, info, c, i.
  pose proof (exact_ceil_pos (n_cat_src info) (nsrc args) ltac:(lia)) as Hceil.
  assert (0 ≤ i * nsrc args) by nia.
  assert (i * nsrc args < n_cat_src info) by nia.
  injection Hjob as -> ->. cbn [Job.srcmin Job.srcmax].
  repeat split; try done; lia.
Qed.

(** ** Keys *)

Lemma full_key_split comp comp' (i j : Z) :
  0 ≤ i → 0 ≤ j →
  full_key comp i = full_key comp' j →
  make_key comp "{ebin_name}_{evtype_name}" = make_key comp' "{ebin_name}_{evtype_name}"
  ∧ i = j.
Proof.
  intros Hi Hj. unfold Generator.full_key.
  rewrite !(PyFacts.app_cons "_" "") , !PyFacts.app_nil_l.
  intros [Hkey Hfmt]%PyFacts.digits_suffix_inj;
    [|done|by apply PyFacts.fmt_0i_digits..].
  split; [done|]. by apply PyFacts.fmt_02i_inj.
Qed.

(** X7.  The key of a job tells the chunk and the key of the component:
    two jobs have the same dictionary key exactly when they are for the
    same chunk number and their components have the same [make_key]
    value. *)
Theorem full_key_inj comp comp' (i j : Z) :
  0 ≤ i → 0 ≤ j →
  full_key comp i = full_key comp' j
  ↔ make_key comp "{ebin_name}_{evtype_name}" = make_key comp' "{ebin_name}_{evtype_name}"
    ∧ i = j.
Proof.
  intros Hi Hj. split; [by apply full_key_split|].
  intros [Hkey ->]. unfold Generator.full_key. by rewrite Hkey.
Qed.

Lemma NoDup_catalog_jobs_keys st c name info n_job components :
  NoDup ((λ comp, make_key comp "{ebin_name}_{evtype_name}") <$> components) →
  NoDup (catalog_jobs st c name info n_job components).*1.
Proof.
  intros Hnd. rewrite catalog_jobs_keys. apply NoDup_bind.
  - intros comp comp' key Hc Hc' (i & -> & Hi)%list_elem_of_fmap
      (j & Hkey & Hj)%list_elem_of_fmap.
    unfold Py.range in *. apply elem_of_seqZ in Hi, Hj.
    apply full_key_split in Hkey as [Hkey _]; [|lia..].
    apply list_elem_of_lookup in Hc as [a Ha], Hc' as [b Hb].
    assert (a = b) as ->.
    { eapply NoDup_lookup; [exact Hnd|by rewrite list_lookup_fmap, Ha|].
      rewrite list_lookup_fmap, Hb. simpl. by rewrite Hkey. }
    congruence.
  - intros comp _. apply NoDup_fmap_2_strong; [|apply NoDup_seqZ].
    unfold Py.range. intros i j Hi%elem_of_seqZ Hj%elem_of_seqZ Hkey.
    apply full_key_split in Hkey as [_ Hkey]; [done|lia..].
  - by apply NoDup_fmap_1 in Hnd.
Qed.

Lemma length_catalog_jobs st c name info n_job components :
  length (catalog_jobs st c name info n_job components)
  = (length components * Z.to_nat n_job)%nat.
Proof.
  unfold Generator.catalog_jobs.
  induction components as [|comp rest IH]; [done|].
  rewrite bind_cons, length_app, IH.
  unfold Generator.comp_jobs, Py.range. rewrite length_fmap, length_seqZ.
  simpl. lia.
Qed.

(** A library of one catalog: what is returned, and what a look-up under
    the key of a component and chunk gives. *)
Lemma single_catalog_lookup st args name info :
  catalog_info_dict (loaded_ret_dict make_catalog_comp_dict st args) = [ (name, info) ] →
  NoDup ((λ component, make_key component "{ebin_name}_{evtype_name}")
           <$> build_from_yamlfile (comp args)) →
  1 ≤ nsrc args < float_limit →
  let job_configs :=
    foldl store ∅
      (catalog_jobs (update_base_dict st (data args)) (nsrc args) name info
         (exact_ceil (n_cat_src info) (nsrc args)) (build_from_yamlfile (comp args))) in
  (build_job_configs st args).2 = Ok job_configs
  ∧ ceil_div (n_cat_src info) (nsrc args) = Ok (exact_ceil (n_cat_src info) (nsrc args))
  ∧ size job_configs
    = (length (build_from_yamlfile (comp args))
       * Z.to_nat (exact_ceil (n_cat_src info) (nsrc args)))%nat
  ∧ ∀ component i,
      component ∈ build_from_yamlfile (comp args) →
      0 ≤ i < exact_ceil (n_cat_src info) (nsrc args) →
      job_configs !! full_key component i
      = Some (job_entry (update_base_dict st (data args)) (nsrc args)
                name info component i).2.
Proof.
  intros Hitems Hnd Hc job_configs.
  split.
  { rewrite build_job_configs_stores by lia. rewrite Hitems.
    unfold Generator.stored_jobs. by rewrite bind_singleton. }
  split; [apply ceil_div_in_range; lia|].
  pose proof (NoDup_catalog_jobs_keys (update_base_dict st (data args)) (nsrc args)
                name info (exact_ceil (n_cat_src info) (nsrc args)) _ Hnd) as Hkeys.
  split.
  - unfold job_configs. rewrite size_foldl_store_NoDup; [|done|by intros].
    rewrite map_size_empty, length_catalog_jobs. lia.
  - intros component i Hcomp Hi.
    apply lookup_foldl_store_NoDup; [done|].
    unfold Generator.catalog_jobs. apply list_elem_of_bind. exists component.
    split; [|done]. unfold Generator.comp_jobs. apply list_elem_of_fmap.
    exists i. split; [done|]. unfold Py.range. apply elem_of_seqZ. lia.
Qed.

(** X8.  A library of one catalog of fewer than 2^53 sources, components
    with different [make_key] values, [nsrc] at least 1 and below
    [float_limit]: the generator returns a dictionary that has one entry
    for each component and chunk, and looking up the key of a component and
    chunk gives the job stored for them. *)
Theorem single_catalog_table st args name info :
  catalog_info_dict (loaded_ret_dict make_catalog_comp_dict st args) = [ (name, info) ] →
  NoDup ((λ component, make_key component "{ebin_name}_{evtype_name}")
           <$> build_from_yamlfile (comp args)) →
  1 ≤ nsrc args < float_limit →
  n_cat_src info < 2 ^ 53 →
  ∃ job_configs n_job,
    (build_job_configs st args).2 = Ok job_configs
    ∧ ceil_div (n_cat_src info) (nsrc args) = Ok n_job
    ∧ (n_job - 1) * nsrc args < n_cat_src info ≤ n_job * nsrc args
    ∧ size job_configs = (length (build_from_yamlfile (comp args)) * Z.to_nat n_job)%nat
    ∧ ∀ component i,
        component ∈ build_from_yamlfile (comp args) → 0 ≤ i < n_job →
        job_configs !! full_key component i
        = Some (job_entry (update_base_dict st (data args)) (nsrc args)
                  name info component i).2.
Proof.
  intros Hitems Hnd Hc Hsize.
  destruct (single_catalog_lookup st args name info Hitems Hnd Hc)
    as (Hres & Hq & Hcount & Hlook).
  eexists _, _. split; [exact Hres|]. split; [exact Hq|].
  split; [apply exact_ceil_pos; lia|]. split; [exact Hcount|exact Hlook].
Qed.

(** ** Several catalogs *)

Lemma stored_jobs_app st c components items items' :
  stored_jobs st c components (items ++ items')
  = stored_jobs st c components items ++ stored_jobs st c components items'.
Proof. unfold Generator.stored_jobs. apply bind_app. Qed.

(** X13.  With [nsrc] at least 1, a catalog that comes last and has at
    least as many sources as every catalog before it leaves only its own
    jobs: the dictionary returned is the one this catalog alone gives, and
    no job of an earlier catalog is in it. *)
Theorem last_catalog_wins st c components job_configs items name info :
  1 ≤ c →
  (∀ item, item ∈ items →
     (length (catalog_table item.2) ≤ length (catalog_table info))%nat) →
  for_catalogs st c components job_configs (items ++ [ (name, info) ])
  = for_catalogs st c components job_configs [ (name, info) ].
Proof.
  intros Hc Hsmaller.
  destruct (decide (float_limit ≤ c)) as [Hover|Hlimit].
  { rewrite (for_catalogs_overflow make_nfs_path make_key st c components job_configs
               (name, info) []) by lia.
    destruct items as [|item rest]; apply for_catalogs_overflow; lia. }
  rewrite !for_catalogs_stores by lia. f_equal.
  rewrite stored_jobs_app, foldl_app.
  apply foldl_store_ext. intros key Hkey. apply lookup_foldl_store_other.
  intros Hin. apply Hkey. clear Hkey.
  apply list_elem_of_fmap in Hin as ([key' job] & -> & Hin). cbn [fst].
  apply elem_of_stored_jobs in Hin as (name' & info' & component & i & Hitem & Hcomp & Hi & Hjob).
  injection Hjob as -> _.
  unfold Generator.stored_jobs. rewrite bind_singleton. cbn [fst snd].
  rewrite catalog_jobs_keys. apply list_elem_of_bind. exists component. split; [|done].
  apply list_elem_of_fmap. exists i. split; [done|].
  unfold Py.range. apply elem_of_seqZ.
  specialize (Hsmaller _ Hitem). cbn [snd] in Hsmaller.
  pose proof (exact_ceil_mono (n_cat_src info') (n_cat_src info) c ltac:(lia)
                ltac:(unfold n_cat_src; lia)).
  lia.
Qed.

(** ** The output and log file of a job *)

Lemma mem_underscore_fits : Py.mem "_" ".fits" = false.
Proof. reflexivity. Qed.

(** X9.  When the path [NAME_FACTORY.srcmaps] resolves ends in [.fits] and
    holds no other [.fits], the output file of chunk [i_job] is that path
    with the two-digit chunk number put before the extension, and the log
    file is [make_nfs_path] of the output file with [.log] for [.fits]. *)
Theorem job_files_numbered st c name info component (i_job : Z) (stem : string) :
  srcmaps st (name_keys st name component) = stem +:+ ".fits" →
  Py.clear_of ".fits" stem ".fits" = true →
  0 ≤ i_job →
  Job.outfile (job_entry st c name info component i_job).2
  = stem +:+ "_" +:+ Py.fmt_0i 2 i_job +:+ ".fits"
  ∧ Job.logfile (job_entry st c name info component i_job).2
    = make_nfs_path (stem +:+ "_" +:+ Py.fmt_0i 2 i_job +:+ ".log").
Proof.
  intros Hpath Hclear Hi. cbn [Generator.job_entry snd Job.outfile Job.logfile].
  assert (Hout : job_outfile st name component i_job
                 = stem +:+ "_" +:+ Py.fmt_0i 2 i_job +:+ ".fits").
  { unfold job_outfile. rewrite Hpath. by apply PyFacts.replace_at_end. }
  split; [done|]. rewrite Hout. f_equal.
  rewrite <-(PyFacts.app_assoc "_"), <-(PyFacts.app_assoc stem).
  rewrite PyFacts.replace_at_end; [|done|].
  - by rewrite !PyFacts.app_assoc.
  - rewrite PyFacts.clear_of_app. apply andb_true_iff. split.
    + rewrite PyFacts.app_assoc, PyFacts.app_cons, PyFacts.app_nil_l.
      eapply PyFacts.clear_of_other_tail; [apply mem_underscore_fits|done].
    + apply PyFacts.clear_of_other_chars.
      rewrite PyFacts.app_cons, PyFacts.app_nil_l. cbn [Py.mem].
      rewrite PyFacts.mem_digits; [done|done|by apply PyFacts.fmt_0i_digits].
Qed.

(** X10.  Under the same condition, different chunks of one component and
    catalog get different output files. *)
Theorem job_outfile_inj st name component (i j : Z) (stem : string) :
  srcmaps st (name_keys st name component) = stem +:+ ".fits" →
  Py.clear_of ".fits" stem ".fits" = true →
  0 ≤ i → 0 ≤ j →
  job_outfile st name component i = job_outfile st name component j → i = j.
Proof.
  intros Hpath Hclear Hi Hj. unfold job_outfile. rewrite Hpath.
  rewrite !PyFacts.replace_at_end by done.
  intros Heq%(inj (String.append stem)).
  rewrite !PyFacts.app_cons, !PyFacts.app_nil_l in Heq. injection Heq as Heq.
  change ".fits" with (String "." "fits") in Heq.
  apply PyFacts.digits_prefix_inj in Heq as [Heq _];
    [|done|by apply PyFacts.fmt_0i_digits..].
  by apply PyFacts.fmt_02i_inj.
Qed.

(** X11.  When the resolved path holds no [.fits] at all, nothing is
    replaced: every chunk of the component gets the resolved path itself
    as output file, and the log file is [make_nfs_path] of that same
    path. *)
Theorem job_files_without_fits st c name info component (i_job : Z) :
  Py.occurs ".fits" (srcmaps st (name_keys st name component)) = false →
  Job.outfile (job_entry st c name info component i_job).2
  = srcmaps st (name_keys st name component)
  ∧ Job.logfile (job_entry st c name info component i_job).2
    = make_nfs_path (srcmaps st (name_keys st name component)).
Proof.
  intros Habsent. cbn [Generator.job_entry snd Job.outfile Job.logfile].
  unfold job_outfile. by rewrite !PyFacts.replace_absent.
Qed.

End Extras.

End GeneratorExtras.


(** * Sample runs for the further properties *)

Module GeneratorExtrasSamples.
Import Generator GeneratorFacts GeneratorExtras.

Lemma returned_jobs_well_formed_witness :
  ∃ name info component i,
    (name, info) ∈ [ ("3FGL", Sample.catalog "3FGL" 1200) ]
    ∧ component ∈ Sample.build_from_yamlfile "binning.yaml"
    ∧ 0 ≤ i
    ∧ ("E1_PSF3_02",
       (job_entry Sample.make_nfs_path Sample.make_key Sample.NAME_FACTORY_loaded 500
          "3FGL" (Sample.catalog "3FGL" 1200) (Sample.component "E1") 2).2)
      = job_entry Sample.make_nfs_path Sample.make_key Sample.NAME_FACTORY_loaded 500
          name info component i
    ∧ 1000 = i * 500
    ∧ 0 ≤ 1000 < 1200
    ∧ 1200 ≤ n_cat_src info
    ∧ 1200 - 1000 ≤ 500.
Proof.
  eapply (returned_jobs_well_formed Sample.make_nfs_path Sample.make_key
            Sample.build_from_yamlfile Sample.make_catalog_comp_dict
            Sample.NAME_FACTORY (Sample.args "catalog.yaml" 500 false) _ "E1_PSF3_02").
  - by vm_compute.
  - by vm_compute.
  - by vm_compute.
Defined.

Lemma full_key_inj_witness :
  full_key Sample.make_key (Sample.component "E0") 7
  = full_key Sample.make_key (Sample.component "E0") 7
  ↔ Sample.make_key (Sample.component "E0") "{ebin_name}_{evtype_name}"
    = Sample.make_key (Sample.component "E0") "{ebin_name}_{evtype_name}"
    ∧ 7 = 7.
Proof.
  apply (full_key_inj Sample.make_key (Sample.component "E0") (Sample.component "E0") 7 7);
    by vm_compute.
Defined.

Lemma build_job_configs_result_witness :
  (Sample.build_job_configs "catalog.yaml" (2 ^ 1024) false).2 = Raise OverflowError.
Proof.
  apply (build_job_configs_result Sample.make_nfs_path Sample.make_key
           Sample.build_from_yamlfile Sample.make_catalog_comp_dict
           Sample.NAME_FACTORY (Sample.args "catalog.yaml" (2 ^ 1024) false)).
  intros item Hitem%list_elem_of_singleton. subst item. by vm_compute.
Defined.

Lemma single_catalog_table_witness :
  ∃ job_configs n_job,
    (Sample.build_job_configs "catalog.yaml" 500 false).2 = Ok job_configs
    ∧ ceil_div (n_cat_src (Sample.catalog "3FGL" 1200)) 500 = Ok n_job
    ∧ (n_job - 1) * 500 < n_cat_src (Sample.catalog "3FGL" 1200) ≤ n_job * 500
    ∧ size job_configs
      = (length (Sample.build_from_yamlfile "binning.yaml") * Z.to_nat n_job)%nat
    ∧ ∀ component i,
        component ∈ Sample.build_from_yamlfile "binning.yaml" → 0 ≤ i < n_job →
        job_configs !! full_key Sample.make_key component i
        = Some (job_entry Sample.make_nfs_path Sample.make_key Sample.NAME_FACTORY_loaded
                  500 "3FGL" (Sample.catalog "3FGL" 1200) component i).2.
Proof.
  apply (single_catalog_table Sample.make_nfs_path Sample.make_key
           Sample.build_from_yamlfile Sample.make_catalog_comp_dict
           Sample.NAME_FACTORY (Sample.args "catalog.yaml" 500 false)
           "3FGL" (Sample.catalog "3FGL" 1200)).
  - reflexivity.
  - apply (bool_decide_unpack _). by vm_compute.
  - by vm_compute.
  - by vm_compute.
Defined.

Lemma job_files_numbered_witness :
  Job.outfile (job_entry Sample.make_nfs_path Sample.make_key Sample.NAME_FACTORY_loaded
                 500 "3FGL" (Sample.catalog "3FGL" 1200) (Sample.component "E0") 1).2
  = "/nfs/diffuse/srcmaps/srcmaps_3FGL_dataset.yaml_none_zmax100_E0_PSF3_GAL_V6"
      +:+ "_" +:+ Py.fmt_0i 2 1 +:+ ".fits"
  ∧ Job.logfile (job_entry Sample.make_nfs_path Sample.make_key Sample.NAME_FACTORY_loaded
                   500 "3FGL" (Sample.catalog "3FGL" 1200) (Sample.component "E0") 1).2
    = Sample.make_nfs_path
        ("/nfs/diffuse/srcmaps/srcmaps_3FGL_dataset.yaml_none_zmax100_E0_PSF3_GAL_V6"
           +:+ "_" +:+ Py.fmt_0i 2 1 +:+ ".log").
Proof.
  apply (job_files_numbered Sample.make_nfs_path Sample.make_key Sample.NAME_FACTORY_loaded
           500 "3FGL" (Sample.catalog "3FGL" 1200) (Sample.component "E0") 1
           "/nfs/diffuse/srcmaps/srcmaps_3FGL_dataset.yaml_none_zmax100_E0_PSF3_GAL_V6");
    by vm_compute.
Defined.

Lemma job_outfile_inj_witness : 3 = 3.
Proof.
  apply (job_outfile_inj Sample.NAME_FACTORY_loaded
           "3FGL" (Sample.component "E0") 3 3
           "/nfs/diffuse/srcmaps/srcmaps_3FGL_dataset.yaml_none_zmax100_E0_PSF3_GAL_V6");
    by vm_compute.
Defined.

Lemma job_files_without_fits_witness :
  Job.outfile (@job_entry _ Sample.hdf_factory Sample.make_nfs_path Sample.make_key
                 Sample.NAME_FACTORY_loaded 500 "3FGL" (Sample.catalog "3FGL" 1200)
                 (Sample.component "E0") 1).2
  = "srcmaps_3FGL_E0.h5"
  ∧ Job.logfile (@job_entry _ Sample.hdf_factory Sample.make_nfs_path Sample.make_key
                   Sample.NAME_FACTORY_loaded 500 "3FGL" (Sample.catalog "3FGL" 1200)
                   (Sample.component "E0") 1).2
    = Sample.make_nfs_path "srcmaps_3FGL_E0.h5".
Proof.
  apply (@job_files_without_fits _ Sample.hdf_factory Sample.make_nfs_path Sample.make_key
           Sample.NAME_FACTORY_loaded 500 "3FGL" (Sample.catalog "3FGL" 1200)
           (Sample.component "E0") 1).
  by vm_compute.
Defined.

End GeneratorExtrasSamples.


(** * The jobs of the generator, run by the worker *)

Module PipelineExtras.
Import Generator GeneratorFacts Worker WorkerExtras.

Lemma bind_ext_in {A C} (f g : A → list C) (l : list A) :
  (∀ x, x ∈ l → f x = g x) → l ≫= f = l ≫= g.
Proof.
  induction l as [|x l IH]; intros Hfg; [done|].
  rewrite !bind_cons, Hfg, IH; [done| |by left].
  intros y Hy. apply Hfg. by right.
Qed.

(** The sources of the first [k] chunks. *)
Lemma chunks_take (srcNames : list string) (c : Z) (k : nat) :
  1 ≤ c → Z.of_nat k * c - c < Z.of_nat (length srcNames) →
  (seqZ 0 (Z.of_nat k) ≫= λ i,
     take (Z.to_nat (Z.min ((i + 1) * c) (Z.of_nat (length srcNames)) - i * c))
          (drop (Z.to_nat (i * c)) srcNames))
  = take (Z.to_nat (Z.min (Z.of_nat k * c) (Z.of_nat (length srcNames)))) srcNames.
Proof.
  intros Hc. induction k as [|k IH]; intros Hk.
  - rewrite seqZ_nil by lia. by rewrite Z.mul_0_l, Z.min_l by lia.
  - rewrite seqZ_S, bind_app, bind_singleton, IH by nia.
    rewrite Z.add_0_l.
    assert (Z.of_nat k * c < Z.of_nat (length srcNames)) by nia.
    rewrite (Z.min_l (Z.of_nat k * c)) by lia.
    rewrite take_take_drop. f_equal. nia.
Qed.

(** The chunks of one component, run one after the other. *)
Lemma chunk_runs_cover {B : Type} `{!NameFactory B}
    (make_nfs_path : string → string) (make_key : Component.t → string → string)
    (st : B) (c : Z) (name : string) (info : CatalogInfo) (component : Component.t)
    (os_system : string → Z) (args_of : Job.t → Worker.Args) (srcNames : list string) :
  1 ≤ c →
  length srcNames = length (catalog_table info) →
  (∀ job, Worker.srcmin (args_of job) = Job.srcmin job
          ∧ Worker.srcmax (args_of job) = Job.srcmax job) →
  let runs :=
    (λ i, run_analysis os_system
            (args_of (job_entry make_nfs_path make_key st c name info component i).2)
            srcNames)
      <$> Py.range (exact_ceil (n_cat_src info) c) in
  Forall (λ r, r.2 = Done) runs
  ∧ (runs ≫= λ r, saved r.1) = srcNames.
Proof.
  intros Hc Hlen Hargs.
  pose proof (exact_ceil_pos (n_cat_src info) c ltac:(lia)) as Hceil.
  set (q := exact_ceil (n_cat_src info) c) in *.
  assert (n_cat_src info = Z.of_nat (length srcNames)) as HN
    by (unfold n_cat_src; by rewrite Hlen).
  rewrite HN in Hceil.
  assert (0 ≤ q) as Hq0 by nia.
  cbn zeta. unfold Py.range.
  assert (Hrun : ∀ i, 0 ≤ i < q →
            let job := (job_entry make_nfs_path make_key st c name info component i).2 in
            (run_analysis os_system (args_of job) srcNames).2 = Done
            ∧ saved (run_analysis os_system (args_of job) srcNames).1
              = take (Z.to_nat (Z.min ((i + 1) * c) (Z.of_nat (length srcNames)) - i * c))
                     (drop (Z.to_nat (i * c)) srcNames)).
  { intros i Hi job. destruct (Hargs job) as [Hmin Hmax].
    assert (Job.srcmin job = i * c) as Hlo by reflexivity.
    assert (Job.srcmax job = Z.min (i * c + c) (Z.of_nat (length srcNames))) as Hhi
      by (rewrite <-HN; reflexivity).
    rewrite Hlo in Hmin. rewrite Hhi in Hmax.
    assert (0 ≤ i * c) by nia. assert (i * c < Z.of_nat (length srcNames)) by nia.
    destruct (saved_in_range os_system (args_of job) srcNames) as [Hdone Hsaved];
      [lia|lia|].
    split; [done|]. rewrite Hsaved, Hmin, Hmax. do 2 f_equal. lia. }
  split.
  - apply Forall_fmap, Forall_seqZ. intros i Hi. by apply Hrun; lia.
  - rewrite list_fmap_bind.
    trans (take (Z.to_nat (Z.min (Z.of_nat (Z.to_nat q) * c) (Z.of_nat (length srcNames))))
             srcNames); [|apply take_ge; rewrite Z2Nat.id by done; lia].
    rewrite <-chunks_take by (rewrite ?Z2Nat.id by done; lia).
    rewrite Z2Nat.id by done.
    apply bind_ext_in. intros i Hi%elem_of_seqZ.
    simpl. apply Hrun. lia.
Qed.

Lemma omap_fmap_in {A C} (f : A → option C) (g : A → C) (l : list A) :
  (∀ x, x ∈ l → f x = Some (g x)) → omap f l = g <$> l.
Proof.
  induction l as [|x l IH]; intros Hfg; [done|].
  cbn [omap list_omap]. rewrite Hfg by left. rewrite fmap_cons. f_equal.
  apply IH. intros y Hy. apply Hfg. by right.
Qed.

(** X12.  A library of one catalog of fewer than 2^53 sources, components
    with different [make_key] values, [nsrc] at least 1 and below
    [float_limit].  Take from the dictionary the generator returns the jobs
    under the keys of the chunks 0 to [n_job - 1] of one component, and run
    the worker on each with the [srcmin] and [srcmax] of the job, on a
    catalog of as many sources as the generator counted: all [n_job] jobs
    are in the dictionary, every run returns, and the maps written by the
    runs, taken in the order of the chunks, are those of all sources of the
    catalog in catalog order, each once. *)
Theorem jobs_cover_catalog {B : Type} `{!NameFactory B}
    (make_nfs_path : string → string) (make_key : Component.t → string → string)
    (build_from_yamlfile : string → list Component.t)
    (make_catalog_comp_dict : string → string → RetDict)
    (st : B) (args : Generator.Args) (name : string) (info : CatalogInfo)
    (component : Component.t)
    (os_system : string → Z) (args_of : Job.t → Worker.Args) (srcNames : list string) :
  catalog_info_dict (loaded_ret_dict make_catalog_comp_dict st args) = [ (name, info) ] →
  NoDup ((λ component, make_key component "{ebin_name}_{evtype_name}")
           <$> build_from_yamlfile (Generator.comp args)) →
  component ∈ build_from_yamlfile (Generator.comp args) →
  1 ≤ nsrc args < float_limit →
  n_cat_src info < 2 ^ 53 →
  length srcNames = length (catalog_table info) →
  (∀ job, Worker.srcmin (args_of job) = Job.srcmin job
          ∧ Worker.srcmax (args_of job) = Job.srcmax job) →
  ∃ job_configs n_job,
    (build_job_configs make_nfs_path make_key build_from_yamlfile
       make_catalog_comp_dict st args).2 = Ok job_configs
    ∧ ceil_div (n_cat_src info) (nsrc args) = Ok n_job
    ∧ let jobs :=
        omap (λ i, job_configs !! full_key make_key component i) (Py.range n_job) in
      let runs := (λ job, run_analysis os_system (args_of job) srcNames) <$> jobs in
      length jobs = Z.to_nat n_job
      ∧ Forall (λ r, r.2 = Done) runs
      ∧ (runs ≫= λ r, saved r.1) = srcNames.
Proof.
  intros Hitems Hnd Hcomp Hc Hsize Hlen Hargs.
  destruct (GeneratorExtras.single_catalog_lookup make_nfs_path make_key
              build_from_yamlfile make_catalog_comp_dict st args name info Hitems Hnd Hc)
    as (Hres & Hq & _ & Hlook).
  eexists _, _. split; [exact Hres|]. split; [exact Hq|]. cbn zeta.
  rewrite (omap_fmap_in _
             (λ i, (job_entry make_nfs_path make_key (update_base_dict st (data args))
                      (nsrc args) name info component i).2)); last first.
  { intros i Hi%elem_of_seqZ. apply Hlook; [done|lia]. }
  split; [by unfold Py.range; rewrite length_fmap, length_seqZ|].
  rewrite <-list_fmap_compose.
  apply (chunk_runs_cover make_nfs_path make_key (update_base_dict st (data args))
           (nsrc args) name info component os_system args_of srcNames); [lia|done|done].
Qed.

Lemma jobs_cover_catalog_witness :
  ∃ job_configs n_job,
    (Sample.build_job_configs "catalog.yaml" 500 false).2 = Ok job_configs
    ∧ ceil_div (n_cat_src (Sample.catalog "3FGL" 1200)) 500 = Ok n_job
    ∧ let jobs :=
        omap (λ i, job_configs !! full_key Sample.make_key (Sample.component "E1") i)
             (Py.range n_job) in
      let runs :=
        (λ job, run_analysis gzip_ok
                  (with_range (Job.srcmin job) (Job.srcmax job) (sample_args 0 0 false))
                  (catalog_table (Sample.catalog "3FGL" 1200))) <$> jobs in
      length jobs = Z.to_nat n_job
      ∧ Forall (λ r, r.2 = Done) runs
      ∧ (runs ≫= λ r, saved r.1) = catalog_table (Sample.catalog "3FGL" 1200).
Proof.
  apply (jobs_cover_catalog Sample.make_nfs_path Sample.make_key
           Sample.build_from_yamlfile Sample.make_catalog_comp_dict
           Sample.NAME_FACTORY (Sample.args "catalog.yaml" 500 false)
           "3FGL" (Sample.catalog "3FGL" 1200) (Sample.component "E1") gzip_ok
           (λ job, with_range (Job.srcmin job) (Job.srcmax job) (sample_args 0 0 false))
           (catalog_table (Sample.catalog "3FGL" 1200))).
  - reflexivity.
  - apply (bool_decide_unpack _). by vm_compute.
  - unfold Sample.build_from_yamlfile. repeat constructor.
  - by vm_compute.
  - by vm_compute.
  - reflexivity.
  - intros job. split; reflexivity.
Defined.

Lemma last_catalog_wins_witness :
  for_catalogs Sample.make_nfs_path Sample.make_key Sample.NAME_FACTORY_loaded 500
    (Sample.build_from_yamlfile "binning.yaml") ∅
    ([ ("3FGL", Sample.catalog "3FGL" 1) ] ++ [ ("4FGL", Sample.catalog "4FGL" 1) ])
  = for_catalogs Sample.make_nfs_path Sample.make_key Sample.NAME_FACTORY_loaded 500
      (Sample.build_from_yamlfile "binning.yaml") ∅
      [ ("4FGL", Sample.catalog "4FGL" 1) ].
Proof.
  apply (GeneratorExtras.last_catalog_wins Sample.make_nfs_path Sample.make_key
           Sample.NAME_FACTORY_loaded 500 (Sample.build_from_yamlfile "binning.yaml") ∅
           [ ("3FGL", Sample.catalog "3FGL" 1) ] "4FGL" (Sample.catalog "4FGL" 1)).
  - by vm_compute.
  - intros item Hitem%list_elem_of_singleton. subst item. by vm_compute.
Defined.

End PipelineExtras.
